(** * Nano for dummies: key derivation, address codec, block hashing and
      proof of work

    A shallow embedding of the library cells of [src/main.ipynb] and the
    properties of its specification that hold (or fail) on that code.

    Python values are modelled as follows:
    - [bytes] / [bytearray]  as [list byte];
    - [str]                  as [string] (characters are [ascii]);
    - [int]                  as [Z];
    - a raised exception     as the [Raise] constructor of [result];
    - [None] (where a function may return it) as [option].

    The hash primitive [hashlib.blake2b] is embedded after RFC 7693
    (unkeyed, sequential mode), the way the notebook calls it.  The
    signature primitive [ed25519_blake2b], the entropy source and the node
    stay parameters of the functions that call them. *)

From Stdlib Require Import ZArith List Lia Bool.
From Stdlib.Strings Require Import Ascii String Byte.
Import ListNotations.

Local Open Scope string_scope.
Local Open Scope list_scope.
Local Open Scope Z_scope.

(** ** Exceptions and the error monad *)

(** The exceptions the library code can raise.  The notebook raises bare
    [Exception]s that differ by their message; the constructors are named
    after the kinds of the specification's error table. *)
Inductive exn : Type :=
| IndexOutOfRange       (* 'Index must be representable with 32 bits...' *)
| InvalidAddressFormat  (* 'Invalid Nano address: ...' *)
| ChecksumMismatch      (* 'Invalid Nano address. Could not validate checksum.' *)
| InvalidLinkFormat     (* 'Block type cannot be determined from link attribute' *)
| BinasciiError         (* binascii.Error, from unhexlify *)
| OverflowError         (* int.to_bytes *)
| ValueError            (* int(str) *)
| NBase32Error.         (* nanolib, on a character outside its alphabet *)

Inductive result (A : Type) : Type :=
| Ok (a : A)
| Raise (e : exn).

Arguments Ok {A} a.
Arguments Raise {A} e.

Definition bind {A B : Type} (r : result A) (k : A -> result B) : result B :=
  match r with
  | Ok a => k a
  | Raise e => Raise e
  end.

Notation "x <- e ;; k" := (bind e (fun x => k))
  (at level 61, e at next level, right associativity).

Definition is_ok {A : Type} (r : result A) : bool :=
  match r with Ok _ => true | Raise _ => false end.

(** ** Bytes and integers *)

Definition byte_of_Z (z : Z) : byte :=
  match Byte.of_N (Z.to_N (z mod 256)) with
  | Some b => b
  | None => x00
  end.

Definition Z_of_byte (b : byte) : Z := Z.of_N (Byte.to_N b).

(** [n] as [len] bytes, most significant first: the digits of
    [int.to_bytes(len, byteorder='big')]. *)
Fixpoint be_bytes (len : nat) (n : Z) : list byte :=
  match len with
  | O => []
  | S len' => be_bytes len' (n / 256) ++ [byte_of_Z n]
  end.

(** [int.to_bytes(len, byteorder='big')]: raises OverflowError on a negative
    integer or one that does not fit. *)
Definition to_bytes (n : Z) (len : nat) : result (list byte) :=
  if (n <? 0) || (256 ^ Z.of_nat len <=? n) then Raise OverflowError
  else Ok (be_bytes len n).

(** [int.from_bytes(bs, 'big')] *)
Definition from_bytes (bs : list byte) : Z :=
  fold_left (fun acc b => acc * 256 + Z_of_byte b) bs 0.

(** ** Strings *)

Definition chars (s : string) : list ascii := list_ascii_of_string s.
Definition str (l : list ascii) : string := string_of_list_ascii l.

Definition Z_of_ascii (c : ascii) : Z := Z.of_N (N_of_ascii c).

Definition in_range (lo hi c : ascii) : bool :=
  (Z_of_ascii lo <=? Z_of_ascii c) && (Z_of_ascii c <=? Z_of_ascii hi).

Definition is_digit (c : ascii) : bool := in_range "0" "9" c.

(** The character class [[a-fA-F0-9]]. *)
Definition is_hex (c : ascii) : bool :=
  in_range "a" "f" c || in_range "A" "F" c || is_digit c.

Definition upper_char (c : ascii) : ascii :=
  if in_range "a" "z" c then ascii_of_N (N_of_ascii c - 32) else c.

(** [str.upper()], on the ASCII letters. *)
Definition upper (s : string) : string := str (map upper_char (chars s)).

(** Comparison of two [str] values with [>=]: lexicographic on the code
    points, a proper prefix being smaller. *)
Definition str_ge (a b : string) : bool :=
  match String.compare a b with
  | Lt => false
  | _ => true
  end.

(** ** binascii *)

Definition hex_char (d : Z) : ascii :=
  nth (Z.to_nat d) (chars "0123456789abcdef") "0"%char.

Definition hex_value (c : ascii) : option Z :=
  if is_digit c then Some (Z_of_ascii c - 48)
  else if in_range "a" "f" c then Some (Z_of_ascii c - 87)
  else if in_range "A" "F" c then Some (Z_of_ascii c - 55)
  else None.

Definition hexlify_chars (bs : list byte) : list ascii :=
  flat_map (fun b => [hex_char (Z_of_byte b / 16); hex_char (Z_of_byte b mod 16)]) bs.

(** [binascii.hexlify(bs).decode()]: two lower-case digits per byte. *)
Definition hexlify (bs : list byte) : string := str (hexlify_chars bs).

Fixpoint unhexlify_chars (l : list ascii) : result (list byte) :=
  match l with
  | [] => Ok []
  | [_] => Raise BinasciiError                       (* odd length *)
  | hi :: lo :: rest =>
      match hex_value hi, hex_value lo with
      | Some h, Some o =>
          bs <- unhexlify_chars rest ;;
          Ok (byte_of_Z (16 * h + o) :: bs)
      | _, _ => Raise BinasciiError                   (* not a hex digit *)
      end
  end.

(** [binascii.unhexlify(s)] *)
Definition unhexlify (s : string) : result (list byte) := unhexlify_chars (chars s).

(** ** hashlib.blake2b (RFC 7693) *)

Module Blake2b.

Definition W : Z := 2 ^ 64.

Definition add64 (a b : Z) : Z := (a + b) mod W.

Definition rotr64 (x n : Z) : Z :=
  Z.lor (Z.shiftr x n) (Z.shiftl x (64 - n) mod W).

Definition IV : list Z :=
  [ 0x6a09e667f3bcc908; 0xbb67ae8584caa73b; 0x3c6ef372fe94f82b;
    0xa54ff53a5f1d36f1; 0x510e527fade682d1; 0x9b05688c2b3e6c1f;
    0x1f83d9abfb41bd6b; 0x5be0cd19137e2179 ].

Definition SIGMA : list (list nat) :=
  [ [ 0; 1; 2; 3; 4; 5; 6; 7; 8; 9; 10; 11; 12; 13; 14; 15];
    [14; 10; 4; 8; 9; 15; 13; 6; 1; 12; 0; 2; 11; 7; 5; 3];
    [11; 8; 12; 0; 5; 2; 15; 13; 10; 14; 3; 6; 7; 1; 9; 4];
    [ 7; 9; 3; 1; 13; 12; 11; 14; 2; 6; 5; 10; 4; 0; 15; 8];
    [ 9; 0; 5; 7; 2; 4; 10; 15; 14; 1; 11; 12; 6; 8; 3; 13];
    [ 2; 12; 6; 10; 0; 11; 8; 3; 4; 13; 7; 5; 15; 14; 1; 9];
    [12; 5; 1; 15; 14; 13; 4; 10; 0; 7; 6; 3; 9; 2; 8; 11];
    [13; 11; 7; 14; 12; 1; 3; 9; 5; 0; 15; 4; 8; 6; 2; 10];
    [ 6; 15; 14; 9; 11; 3; 0; 8; 12; 2; 13; 7; 1; 4; 10; 5];
    [10; 2; 8; 4; 7; 6; 1; 5; 15; 11; 9; 14; 3; 12; 13; 0] ]%nat.

Definition get (v : list Z) (i : nat) : Z := nth i v 0.

Fixpoint set (v : list Z) (i : nat) (x : Z) : list Z :=
  match v, i with
  | [], _ => []
  | _ :: v', O => x :: v'
  | y :: v', S i' => y :: set v' i' x
  end.

(** The mixing function G. *)
Definition G (v : list Z) (a b c d : nat) (x y : Z) : list Z :=
  let va := add64 (add64 (get v a) (get v b)) x in
  let vd := rotr64 (Z.lxor (get v d) va) 32 in
  let vc := add64 (get v c) vd in
  let vb := rotr64 (Z.lxor (get v b) vc) 24 in
  let va := add64 (add64 va vb) y in
  let vd := rotr64 (Z.lxor vd va) 16 in
  let vc := add64 vc vd in
  let vb := rotr64 (Z.lxor vb vc) 63 in
  set (set (set (set v a va) b vb) c vc) d vd.

Definition round (m : list Z) (s : list nat) (v : list Z) : list Z :=
  let w i := get m (nth i s O) in
  let v := G v 0 4 8 12 (w 0%nat) (w 1%nat) in
  let v := G v 1 5 9 13 (w 2%nat) (w 3%nat) in
  let v := G v 2 6 10 14 (w 4%nat) (w 5%nat) in
  let v := G v 3 7 11 15 (w 6%nat) (w 7%nat) in
  let v := G v 0 5 10 15 (w 8%nat) (w 9%nat) in
  let v := G v 1 6 11 12 (w 10%nat) (w 11%nat) in
  let v := G v 2 7 8 13 (w 12%nat) (w 13%nat) in
  G v 3 4 9 14 (w 14%nat) (w 15%nat).

(** The compression function F: [h] the chaining value, [m] the sixteen
    message words, [t] the byte counter, [last] the final-block flag. *)
Definition compress (h m : list Z) (t : Z) (last : bool) : list Z :=
  let v := h ++ IV in
  let v := set v 12 (Z.lxor (get v 12) (t mod W)) in
  let v := set v 13 (Z.lxor (get v 13) (t / W)) in
  let v := if last then set v 14 (Z.lxor (get v 14) (W - 1)) else v in
  let v := fold_left (fun v i => round m (nth (i mod 10) SIGMA []) v)
                     (seq 0 12) v in
  map (fun i => Z.lxor (Z.lxor (get h i) (get v i)) (get v (i + 8))) (seq 0 8).

(** Little-endian word of eight bytes and back. *)
Definition le_word (bs : list byte) : Z := from_bytes (rev bs).
Definition word_bytes (w : Z) : list byte := rev (be_bytes 8 w).

Fixpoint words (n : nat) (block : list byte) : list Z :=
  match n with
  | O => []
  | S n' => le_word (firstn 8 block) :: words n' (skipn 8 block)
  end.

(** A block of at most 128 bytes, zero-padded, as sixteen words. *)
Definition block_words (block : list byte) : list Z :=
  words 16 (block ++ repeat x00 (128 - List.length block)).

(** Absorb [data] block by block; the last block (the only one that may be
    short, and the only one when [data] is empty) is compressed with the
    final flag.  [fuel] bounds the number of blocks. *)
Fixpoint absorb (fuel : nat) (h : list Z) (t : Z) (data : list byte) : list Z :=
  match fuel with
  | O => h
  | S fuel' =>
      if (List.length data <=? 128)%nat
      then compress h (block_words data) (t + Z.of_nat (List.length data)) true
      else absorb fuel'
             (compress h (block_words (firstn 128 data)) (t + 128) false)
             (t + 128) (skipn 128 data)
  end.

(** [blake2b(data, digest_size=digest_size).digest()] *)
Definition blake2b (digest_size : nat) (data : list byte) : list byte :=
  let h0 := set IV 0 (Z.lxor (get IV 0)
                        (Z.lxor 0x01010000 (Z.of_nat digest_size))) in
  let h := absorb (S (List.length data / 128)) h0 0 data in
  firstn digest_size (flat_map word_bytes h).

End Blake2b.

Definition blake2b := Blake2b.blake2b.

Definition blake2b_hex (digest_size : nat) (data : list byte) : string :=
  hexlify (blake2b digest_size data).

(** ** Python built-ins used by the notebook *)

Definition newline : ascii := ascii_of_N 10.

(** Where the regex anchor [$] matches: at the end of the string, or just
    before a newline that ends it. *)
Definition at_end (l : list ascii) : bool :=
  match l with
  | [] => true
  | [c] => Ascii.eqb c newline
  | _ => false
  end.

Fixpoint strip_prefix (p l : list ascii) : option (list ascii) :=
  match p, l with
  | [], _ => Some l
  | a :: p', b :: l' => if Ascii.eqb a b then strip_prefix p' l' else None
  | _ :: _, [] => None
  end.

Fixpoint drop_while (f : ascii -> bool) (l : list ascii) : list ascii :=
  match l with
  | c :: l' => if f c then drop_while f l' else l
  | [] => []
  end.

(** [re.match('^[a-fA-F0-9]+$', s)]: one hex character or more, up to [$]. *)
Definition match_hex (s : string) : bool :=
  match chars s with
  | c :: rest => is_hex c && at_end (drop_while is_hex rest)
  | [] => false
  end.

(** [s[:-n]] and [s[-n:]] for a positive [n], and [s[n:]]. *)
Definition slice_to_neg {A : Type} (n : nat) (l : list A) : list A :=
  firstn (List.length l - n) l.
Definition slice_from_neg {A : Type} (n : nat) (l : list A) : list A :=
  skipn (List.length l - n) l.
Definition slice_from {A : Type} (n : nat) (l : list A) : list A := skipn n l.

(** [int(s)] on a [str]: surrounding whitespace, an optional sign, decimal
    digits with single underscores between them. *)
Definition is_space (c : ascii) : bool :=
  let n := Z_of_ascii c in
  ((9 <=? n) && (n <=? 13)) || (n =? 32) || (n =? 133) || (n =? 160).

Fixpoint digits_value (acc : Z) (after_digit : bool) (l : list ascii) : option Z :=
  match l with
  | [] => if after_digit then Some acc else None
  | c :: l' =>
      if is_digit c then digits_value (10 * acc + (Z_of_ascii c - 48)) true l'
      else if Ascii.eqb c "_" && after_digit then digits_value acc false l'
      else None
  end.

Definition int_of_str (s : string) : result Z :=
  let body := rev (drop_while is_space (rev (drop_while is_space (chars s)))) in
  let parsed :=
    match body with
    | c :: l' =>
        if Ascii.eqb c "+" then digits_value 0 false l'
        else if Ascii.eqb c "-" then option_map Z.opp (digits_value 0 false l')
        else digits_value 0 false body
    | [] => None
    end in
  match parsed with
  | Some n => Ok n
  | None => Raise ValueError
  end.

(** ** nanolib's base-32 codec ([import nanolib as nl]) *)

Module nl.

Definition alphabet : list ascii := chars "13456789abcdefghijkmnopqrstuwxyz".

Definition in_alphabet (c : ascii) : bool := existsb (Ascii.eqb c) alphabet.

Fixpoint index_from (i : Z) (l : list ascii) (c : ascii) : option Z :=
  match l with
  | [] => None
  | a :: l' => if Ascii.eqb a c then Some i else index_from (i + 1) l' c
  end.

Definition index (c : ascii) : option Z := index_from 0 alphabet c.

Definition symbol (d : Z) : ascii := nth (Z.to_nat d) alphabet "1"%char.

(** [n] as [w] bits, most significant first, and back. *)
Fixpoint bits (w : nat) (n : Z) : list bool :=
  match w with
  | O => []
  | S w' => bits w' (n / 2) ++ [Z.odd n]
  end.

Definition value (bs : list bool) : Z :=
  fold_left (fun acc b => 2 * acc + Z.b2z b) bs 0.

Fixpoint quintets (l : list bool) : list Z :=
  match l with
  | a :: b :: c :: d :: e :: l' => value [a; b; c; d; e] :: quintets l'
  | _ => []
  end.

Fixpoint octets (l : list bool) : list byte :=
  match l with
  | a :: b :: c :: d :: e :: f :: g :: h :: l' =>
      byte_of_Z (value [a; b; c; d; e; f; g; h]) :: octets l'
  | _ => []
  end.

Definition bytes_bits (bs : list byte) : list bool :=
  flat_map (fun b => bits 8 (Z_of_byte b)) bs.

(** Modelled from the spec: [nanolib.bytes_to_nbase32] is not among the
    sources.  The bytes are read as one bit string, most significant bit
    first, zero bits are put in front until the length is a multiple of
    five (four for a 32-byte key, none for a 5-byte checksum), and every
    five bits select one character of the alphabet. *)
Definition bytes_to_nbase32 (bs : list byte) : string :=
  let data := bytes_bits bs in
  let pad := ((5 - List.length data mod 5) mod 5)%nat in
  str (map symbol (quintets (repeat false pad ++ data))).

Fixpoint indices (l : list ascii) : result (list Z) :=
  match l with
  | [] => Ok []
  | c :: l' =>
      match index c with
      | Some d => ds <- indices l' ;; Ok (d :: ds)
      | None => Raise NBase32Error
      end
  end.

(** Modelled from the spec: [nanolib.nbase32_to_bytes] is not among the
    sources.  Every character stands for five bits; the high bits that do
    not fill a byte (four for the 52 characters of a key) are padding and
    are dropped; the rest are the bytes. *)
Definition nbase32_to_bytes (s : string) : result (list byte) :=
  ds <- indices (chars s) ;;
  let data := flat_map (bits 5) ds in
  Ok (octets (skipn (List.length data mod 8) data)).

End nl.


(** ** Constants of the notebook *)

Definition SEED_SIZE_BYTES : nat := 32.
Definition KEYS_SIZE_BYTES : nat := 32.
Definition CHECKSUM_DIGEST_SIZE_BYTES : nat := 5.
Definition PRIVATE_KEY_INDEX_SIZE_BYTES : nat := 4.
Definition SIGNATURE_DIGEST_SIZE_BYTES : nat := 32.
Definition WORK_SIZE_BYTES : nat := 8.
Definition BALANCE_SIZE_BYTES : nat := 16.

Definition MAX_NONCE_SIZE : Z := 2 ^ 64 - 1.
Definition MINIMUM_NETWORK_DIFFICULTY : string := "fffffff800000000".
Definition MINIMUM_RECEIVE_NETWORK_DIFFICULTY : string := "fffffe0000000000".

(** [re.match(NANO_ADDRESS_REGEX, s)], with
    [NANO_ADDRESS_REGEX = '^(nano|xrb)_[13]{1}[13456789abcdefghijkmnopqrstuwxyz]{59}$']. *)
Definition match_address (s : string) : bool :=
  let l := chars s in
  let after_prefix :=
    match strip_prefix (chars "nano") l with
    | Some r => Some r
    | None => strip_prefix (chars "xrb") l
    end in
  match after_prefix with
  | Some (u :: c :: rest) =>
      Ascii.eqb u "_"
      && (Ascii.eqb c "1" || Ascii.eqb c "3")
      && (59 <=? List.length rest)%nat
      && forallb nl.in_alphabet (firstn 59 rest)
      && at_end (skipn 59 rest)
  | _ => false
  end.

(** ** The block record *)

Record Block : Type := mkBlock {
  type : string;
  account : string;
  previous : string;
  representative : string;
  balance : string;
  link : string;
  signature : string;
  work : string
}.

(** ** KeyDerivation *)

Section KeyDerivation.

(** [ed25519_blake2b.SigningKey(k).get_verifying_key().to_bytes()]: the
    public key of a 32-byte private key. *)
Variable verifying_key : list byte -> list byte.

Definition generate_public_private_key_pairs (seed : string) (index : Z)
  : result (string * string) :=
  if index >? 2 ^ 32 - 1 then Raise IndexOutOfRange
  else
    index_bytes <- to_bytes index 8 ;;
    let index_in_bytes := slice_to_neg PRIVATE_KEY_INDEX_SIZE_BYTES index_bytes in
    seed_bytes <- unhexlify seed ;;
    let private_key := blake2b KEYS_SIZE_BYTES (seed_bytes ++ index_in_bytes) in
    let verifying := verifying_key private_key in
    Ok (upper (hexlify private_key), upper (hexlify verifying)).

End KeyDerivation.

(** ** AddressCodec *)

Definition derive_address_from_public_key (public_key : string) : result string :=
  key <- unhexlify public_key ;;
  let base64_key := nl.bytes_to_nbase32 key in
  let checksum := rev (blake2b CHECKSUM_DIGEST_SIZE_BYTES key) in
  let base64_checksum := nl.bytes_to_nbase32 checksum in
  Ok ("nano_" ++ base64_key ++ base64_checksum)%string.

Definition derive_public_key_from_address (address : string) : result string :=
  if negb (match_address address) then Raise InvalidAddressFormat
  else
    let address_part := str (slice_from 5 (slice_to_neg 8 (chars address))) in
    let checksum := str (slice_from_neg 8 (chars address)) in
    public_key <- nl.nbase32_to_bytes address_part ;;
    let checksum_bits := rev (blake2b 5 public_key) in
    let computed_checksum := nl.bytes_to_nbase32 checksum_bits in
    if negb (String.eqb checksum computed_checksum) then Raise ChecksumMismatch
    else Ok (upper (hexlify public_key)).

(** ** BlockHasher *)

Definition STATE_BLOCK_HEADER_BYTES : list byte :=
  match unhexlify "0000000000000000000000000000000000000000000000000000000000000006" with
  | Ok bs => bs
  | Raise _ => []
  end.

(** [len(set(s)) == 1 and '0' in s]: [s] is not empty and all its
    characters are ['0']. *)
Definition only_zeros (s : string) : bool :=
  match chars s with
  | [] => false
  | l => forallb (Ascii.eqb "0") l
  end.

Definition process_link_data (block : Block) : result string :=
  if match_address (link block) then
    (* it's a send block *)
    derive_public_key_from_address (link block)
  else if match_hex (link block) then
    (* it's a receive block *)
    Ok (link block)
  else if only_zeros (link block) then
    (* it's a change block *)
    Ok (link block)
  else Raise InvalidLinkFormat.

(** The bytes that [create_block_hash] joins and feeds to the hasher. *)
Definition block_bytes (block : Block) : result (list byte) :=
  public_key <- derive_public_key_from_address (account block) ;;
  representative_key <- derive_public_key_from_address (representative block) ;;
  account_b <- unhexlify public_key ;;
  previous_b <- unhexlify (previous block) ;;
  representative_b <- unhexlify representative_key ;;
  balance_n <- int_of_str (balance block) ;;
  balance_b <- to_bytes balance_n BALANCE_SIZE_BYTES ;;
  link_hex <- process_link_data block ;;
  link_b <- unhexlify link_hex ;;
  Ok (STATE_BLOCK_HEADER_BYTES ++ account_b ++ previous_b ++ representative_b
        ++ balance_b ++ link_b).

Definition create_block_hash (block : Block) : result (list byte) :=
  joined <- block_bytes block ;;
  Ok (blake2b SIGNATURE_DIGEST_SIZE_BYTES joined).

(** ** WorkEngine *)

Definition get_block_hash (block : Block) : result string :=
  if only_zeros (previous block) then
    derive_public_key_from_address (account block)
  else Ok (previous block).

(** [binascii.unhexlify(get_block_hash(block))], the first statement of
    [compute_work] and of [validate_work]: the proof-of-work base. *)
Definition work_base (block : Block) : result (list byte) :=
  hash_hex <- get_block_hash block ;;
  unhexlify hash_hex.

(** The loop of [compute_work].  [draws] are the successive results of
    [random.randint(0, MAX_NONCE_SIZE)] that the loop obtains before
    [timeout_seconds] have passed: the loop ends when one of them makes the
    work reach the difficulty, or when the time (the list) is exhausted. *)
Fixpoint search_nonce (block_hash : list byte) (difficulty : string)
                      (draws : list Z) : result (option string) :=
  match draws with
  | [] => Ok None
  | r :: draws' =>
      candidate_be <- to_bytes r 8 ;;
      let candidate := rev candidate_be in
      let work := rev (blake2b WORK_SIZE_BYTES (candidate ++ block_hash)) in
      let computed_work := hexlify work in
      if str_ge computed_work difficulty
      then Ok (Some (hexlify (rev candidate)))
      else search_nonce block_hash difficulty draws'
  end.

(** [compute_work(block, difficulty, timeout_seconds)]: [Ok (Some nonce)]
    when a nonce is found, [Ok None] (Python's [None]) on a timeout. *)
Definition compute_work (block : Block) (difficulty : string) (draws : list Z)
  : result (option string) :=
  block_hash <- work_base block ;;
  nonce <- search_nonce block_hash difficulty draws ;;
  match nonce with
  | Some n => if String.eqb n "" then Ok None else Ok (Some n)
  | None => Ok None
  end.

(** [validate_work(block, nonce, difficulty)]; [nonce] may be [None]. *)
Definition validate_work (block : Block) (nonce : option string)
                         (difficulty : string) : result bool :=
  match nonce with
  | None => Ok false
  | Some n =>
      if String.eqb n "" then Ok false
      else
        block_hash <- work_base block ;;
        bin_nonce <- unhexlify n ;;
        let computed_hash :=
          rev (blake2b WORK_SIZE_BYTES (rev bin_nonce ++ block_hash)) in
        let work := hexlify computed_hash in
        if str_ge work difficulty then Ok true else Ok false
  end.

(** ** Seed generation *)

(** [base64.b16encode(bs).decode()], which CPython computes as
    [binascii.hexlify(bs).upper()]. *)
Definition b16encode (bs : list byte) : string := upper (hexlify bs).

(** [generate_seed()]; [entropy] stands for the bytes that
    [secrets.token_bytes(SEED_SIZE_BYTES)] returns. *)
Definition generate_seed (entropy : list byte) : string :=
  upper (b16encode entropy).

(** ** Signer and verifier *)

Section Signatures.

(** The signature primitive, [ed25519_blake2b]. *)
Variables SigningKey VerifyingKey : Type.

(** [ed25519_blake2b.SigningKey(key_bytes)] *)
Variable signing_key : list byte -> result SigningKey.

(** [signing_key.sign(message)] *)
Variable sign : SigningKey -> list byte -> result (list byte).

(** [ed25519_blake2b.VerifyingKey(public_key, encoding='hex')] *)
Variable verifying_key_of_hex : string -> result VerifyingKey.

(** [verifying_key.verify(signature, message)] under the [try] of
    [validate_block_signature]: [Ok true] when it returns, [Ok false] when
    it raises BadSignatureError, [Raise] for any other exception. *)
Variable verify : VerifyingKey -> list byte -> list byte -> result bool.

Definition create_block_signature (block : Block) (private_key : string)
  : result string :=
  block_hash_bits <- create_block_hash block ;;
  key_bytes <- unhexlify private_key ;;
  key <- signing_key key_bytes ;;
  signature_bits <- sign key block_hash_bits ;;
  Ok (upper (hexlify signature_bits)).

Definition validate_block_signature (block : Block) (signature address : string)
  : result bool :=
  public_key <- derive_public_key_from_address address ;;
  key <- verifying_key_of_hex public_key ;;
  block_hash <- create_block_hash block ;;
  signature_bits <- unhexlify signature ;;
  verify key signature_bits block_hash.

(** ** Submission *)

Definition DEFAULT_NANO_NODE : string := "https://mynano.ninja/api/node".

(** What [process_block] does: it returns the node's answer, raises one of
    its own two exceptions, or lets an exception of a callee through. *)
Inductive outcome (R : Type) : Type :=
| Posted (response : R)
| WorkInvalid                (* 'Work used in block is invalid.' *)
| SignatureInvalid           (* 'Signature used in block is invalid.' *)
| Raised (e : exn).

Arguments Posted {R} response.
Arguments WorkInvalid {R}.
Arguments SignatureInvalid {R}.
Arguments Raised {R} e.

(** [requests.post(url, json={'subtype': subtype, 'action': 'process',
    'block': block, 'json_block': True}).json()] *)
Variable Response : Type.
Variable post : string -> string -> Block -> Response.

Definition process_block (block : Block) (node_hostname subtype difficulty : string)
  : outcome Response :=
  match validate_work block (Some (work block)) MINIMUM_NETWORK_DIFFICULTY with
  | Raise e => Raised e
  | Ok false => WorkInvalid
  | Ok true =>
      match validate_block_signature block (signature block) (account block) with
      | Raise e => Raised e
      | Ok false => SignatureInvalid
      | Ok true => Posted (post DEFAULT_NANO_NODE subtype block)
      end
  end.

End Signatures.

Arguments Posted {R} response.
Arguments WorkInvalid {R}.
Arguments SignatureInvalid {R}.
Arguments Raised {R} e.

(** * Properties *)

(** ** Strings and bytes *)

Lemma chars_str (l : list ascii) : chars (str l) = l.
Proof. apply list_ascii_of_string_of_list_ascii. Qed.

Lemma str_chars (s : string) : str (chars s) = s.
Proof. apply string_of_list_ascii_of_string. Qed.

Lemma chars_app (a b : string) : chars (a ++ b)%string = chars a ++ chars b.
Proof.
  induction a as [|c a IH]; simpl; [reflexivity|].
  unfold chars in *. simpl. now rewrite IH.
Qed.

Lemma chars_inj (a b : string) : chars a = chars b -> a = b.
Proof.
  intros H. rewrite <- (str_chars a), <- (str_chars b). now rewrite H.
Qed.

Lemma length_chars (s : string) : List.length (chars s) = String.length s.
Proof. induction s as [|c s IH]; simpl; [reflexivity|]. now rewrite <- IH. Qed.

Lemma byte_of_Z_of_byte (b : byte) : byte_of_Z (Z_of_byte b) = b.
Proof. destruct b; reflexivity. Qed.

Lemma Z_of_byte_range (b : byte) : 0 <= Z_of_byte b < 256.
Proof. destruct b; cbv; split; congruence. Qed.

Lemma Z_of_byte_of_Z (z : Z) : Z_of_byte (byte_of_Z z) = z mod 256.
Proof.
  unfold byte_of_Z, Z_of_byte.
  assert (Hr : 0 <= z mod 256 < 256) by (apply Z.mod_pos_bound; lia).
  destruct (Byte.of_N (Z.to_N (z mod 256))) as [b|] eqn:E.
  - apply Byte.to_of_N in E. rewrite E. lia.
  - apply Byte.of_N_None_iff in E. lia.
Qed.

Lemma length_be_bytes (len : nat) (n : Z) : List.length (be_bytes len n) = len.
Proof.
  revert n; induction len as [|len IH]; intros n; simpl; [reflexivity|].
  rewrite length_app, IH. simpl. lia.
Qed.

Lemma from_bytes_app (a : list byte) (b : byte) :
  from_bytes (a ++ [b]) = from_bytes a * 256 + Z_of_byte b.
Proof. unfold from_bytes. now rewrite fold_left_app. Qed.

Lemma from_bytes_be_bytes (len : nat) (n : Z) :
  from_bytes (be_bytes len n) = n mod 256 ^ Z.of_nat len.
Proof.
  revert n; induction len as [|len IH]; intros n.
  - simpl. now rewrite Z.mod_1_r.
  - cbn [be_bytes]. rewrite from_bytes_app, IH, Z_of_byte_of_Z.
    rewrite Nat2Z.inj_succ, Z.pow_succ_r by lia.
    rewrite (Z.rem_mul_r n 256 (256 ^ Z.of_nat len)) by lia. lia.
Qed.

Lemma to_bytes_ok (n : Z) (len : nat) (bs : list byte) :
  to_bytes n len = Ok bs ->
  bs = be_bytes len n /\ 0 <= n < 256 ^ Z.of_nat len.
Proof.
  unfold to_bytes.
  destruct (n <? 0) eqn:E1; [discriminate|].
  destruct (256 ^ Z.of_nat len <=? n) eqn:E2; [discriminate|].
  simpl. intros H; injection H as <-. split; [reflexivity|lia].
Qed.

(** ** hexlify and unhexlify *)

Lemma unhexlify_hex_pair (b : byte) (rest : list ascii) :
  unhexlify_chars (hex_char (Z_of_byte b / 16) :: hex_char (Z_of_byte b mod 16) :: rest)
  = (bs <- unhexlify_chars rest ;; Ok (b :: bs)).
Proof. destruct b; reflexivity. Qed.

Lemma unhexlify_upper_hex_pair (b : byte) (rest : list ascii) :
  unhexlify_chars (upper_char (hex_char (Z_of_byte b / 16))
                     :: upper_char (hex_char (Z_of_byte b mod 16)) :: rest)
  = (bs <- unhexlify_chars rest ;; Ok (b :: bs)).
Proof. destruct b; reflexivity. Qed.

Lemma unhexlify_hexlify (bs : list byte) : unhexlify (hexlify bs) = Ok bs.
Proof.
  unfold unhexlify, hexlify. rewrite chars_str.
  induction bs as [|b bs IH]; [reflexivity|].
  cbn [hexlify_chars flat_map app]. fold (hexlify_chars bs).
  now rewrite unhexlify_hex_pair, IH.
Qed.

Lemma unhexlify_upper_hexlify (bs : list byte) :
  unhexlify (upper (hexlify bs)) = Ok bs.
Proof.
  unfold unhexlify, upper, hexlify. rewrite !chars_str.
  induction bs as [|b bs IH]; [reflexivity|].
  cbn [hexlify_chars flat_map app map]. fold (hexlify_chars bs).
  now rewrite unhexlify_upper_hex_pair, IH.
Qed.

Lemma length_hexlify_chars (bs : list byte) :
  List.length (hexlify_chars bs) = (2 * List.length bs)%nat.
Proof. induction bs as [|b bs IH]; simpl in *; [reflexivity|]. rewrite IH. lia. Qed.

Lemma length_hexlify (bs : list byte) :
  String.length (hexlify bs) = (2 * List.length bs)%nat.
Proof. unfold hexlify. now rewrite <- length_chars, chars_str, length_hexlify_chars. Qed.

Lemma length_upper (s : string) : String.length (upper s) = String.length s.
Proof. unfold upper. now rewrite <- !length_chars, chars_str, length_map. Qed.

Lemma length_unhexlify_chars (l : list ascii) (bs : list byte) :
  unhexlify_chars l = Ok bs -> List.length l = (2 * List.length bs)%nat.
Proof.
  assert (Hall : forall n l bs, (List.length l <= n)%nat ->
            unhexlify_chars l = Ok bs ->
            List.length l = (2 * List.length bs)%nat).
  { clear l bs. induction n as [|n IH]; intros l bs Hle H.
    - destruct l; [|simpl in Hle; lia]. simpl in H. now injection H as <-.
    - destruct l as [|hi [|lo rest]]; simpl in H.
      + now injection H as <-.
      + discriminate.
      + destruct (hex_value hi); [|discriminate].
        destruct (hex_value lo); [|discriminate].
        destruct (unhexlify_chars rest) as [bs'|] eqn:E; [|discriminate].
        simpl in H. injection H as <-.
        simpl in Hle. simpl. rewrite (IH rest bs'); [lia | lia | exact E]. }
  apply (Hall (List.length l)). lia.
Qed.

Lemma length_unhexlify (s : string) (bs : list byte) :
  unhexlify s = Ok bs -> String.length s = (2 * List.length bs)%nat.
Proof. intros H. rewrite <- length_chars. now apply length_unhexlify_chars. Qed.

(** ** The digest has the requested size *)

Module Blake2bFacts.
Import Blake2b.

Lemma length_compress h m t last : List.length (compress h m t last) = 8%nat.
Proof. unfold compress. now rewrite length_map, length_seq. Qed.

Lemma length_absorb fuel h t data :
  List.length h = 8%nat -> List.length (absorb fuel h t data) = 8%nat.
Proof.
  revert h t data; induction fuel as [|fuel IH]; intros h t data Hh; simpl.
  - exact Hh.
  - destruct (List.length data <=? 128)%nat.
    + apply length_compress.
    + apply IH, length_compress.
Qed.

Lemma length_set v i x : List.length (set v i x) = List.length v.
Proof.
  revert i; induction v as [|y v IH]; intros i; [reflexivity|].
  destruct i; simpl; [reflexivity|]. now rewrite IH.
Qed.

Lemma length_state_bytes (h : list Z) :
  List.length (flat_map word_bytes h) = (8 * List.length h)%nat.
Proof.
  induction h as [|w h IH]; [reflexivity|].
  cbn [flat_map]. rewrite length_app, IH.
  unfold word_bytes. rewrite length_rev, length_be_bytes. simpl. lia.
Qed.

End Blake2bFacts.

Lemma length_blake2b (digest_size : nat) (data : list byte) :
  (digest_size <= 64)%nat -> List.length (blake2b digest_size data) = digest_size.
Proof.
  intros Hn. unfold blake2b, Blake2b.blake2b.
  rewrite length_firstn, Blake2bFacts.length_state_bytes.
  rewrite Blake2bFacts.length_absorb.
  - lia.
  - now rewrite Blake2bFacts.length_set.
Qed.

(** ** The base-32 codec is a bijection on byte strings *)

Module NBase32Facts.
Import nl.

Lemma length_bits (w : nat) (n : Z) : List.length (bits w n) = w.
Proof.
  revert n; induction w as [|w IH]; intros n; simpl; [reflexivity|].
  rewrite length_app, IH. simpl. lia.
Qed.

Lemma quintets_cons (a b c d e : bool) (l : list bool) :
  quintets (a :: b :: c :: d :: e :: l) = value [a; b; c; d; e] :: quintets l.
Proof. reflexivity. Qed.

Lemma octets_cons (a b c d e f g h : bool) (l : list bool) :
  octets (a :: b :: c :: d :: e :: f :: g :: h :: l)
  = byte_of_Z (value [a; b; c; d; e; f; g; h]) :: octets l.
Proof. reflexivity. Qed.

Lemma bits_value_5 (a b c d e : bool) :
  bits 5 (value [a; b; c; d; e]) = [a; b; c; d; e].
Proof. destruct a, b, c, d, e; reflexivity. Qed.

Lemma value_5_range (a b c d e : bool) : 0 <= value [a; b; c; d; e] < 32.
Proof. destruct a, b, c, d, e; cbv; split; congruence. Qed.

Lemma octets_byte (b : byte) (l : list bool) :
  octets (bits 8 (Z_of_byte b) ++ l) = b :: octets l.
Proof. destruct b; reflexivity. Qed.

Lemma octets_bytes_bits (k : list byte) : octets (bytes_bits k) = k.
Proof.
  induction k as [|b k IH]; [reflexivity|].
  unfold bytes_bits in *. cbn [flat_map]. now rewrite octets_byte, IH.
Qed.

Lemma length_bytes_bits (k : list byte) :
  List.length (bytes_bits k) = (8 * List.length k)%nat.
Proof.
  induction k as [|b k IH]; [reflexivity|].
  unfold bytes_bits in *. cbn [flat_map].
  rewrite length_app, length_bits, IH. simpl. lia.
Qed.

(** Lists whose length is [5 * n] or [8 * n] split into groups. *)
Ltac take_bit l H := destruct l as [|? l]; [simpl in H; lia|].
Ltac take_quintet l H := do 5 (take_bit l H).
Ltac take_octet l H := do 8 (take_bit l H).

Lemma length_quintets (n : nat) (l : list bool) :
  List.length l = (5 * n)%nat -> List.length (quintets l) = n.
Proof.
  revert l; induction n as [|n IH]; intros l H.
  - destruct l; [reflexivity|simpl in H; lia].
  - take_quintet l H. rewrite quintets_cons. simpl List.length.
    f_equal. apply IH. simpl in H. lia.
Qed.

Lemma length_octets (n : nat) (l : list bool) :
  List.length l = (8 * n)%nat -> List.length (octets l) = n.
Proof.
  revert l; induction n as [|n IH]; intros l H.
  - destruct l; [reflexivity|simpl in H; lia].
  - take_octet l H. rewrite octets_cons. simpl List.length.
    f_equal. apply IH. simpl in H. lia.
Qed.

Lemma bits_quintets (n : nat) (l : list bool) :
  List.length l = (5 * n)%nat -> flat_map (bits 5) (quintets l) = l.
Proof.
  revert l; induction n as [|n IH]; intros l H.
  - destruct l; [reflexivity|simpl in H; lia].
  - take_quintet l H. rewrite quintets_cons. cbn [flat_map].
    rewrite bits_value_5, IH; [reflexivity|]. simpl in H. lia.
Qed.

Definition digit (d : Z) : Prop := 0 <= d < 32.

Lemma quintets_digits (l : list bool) : Forall digit (quintets l).
Proof.
  assert (Hall : forall n l, (List.length l <= n)%nat -> Forall digit (quintets l)).
  { clear l. induction n as [|n IH]; intros l H.
    - destruct l; [constructor|simpl in H; lia].
    - destruct l as [|a [|b [|c [|d [|e l]]]]]; try constructor.
      + apply value_5_range.
      + apply IH. simpl in H. lia. }
  apply (Hall (List.length l)). lia.
Qed.

Lemma index_nth (n : nat) :
  (n < 32)%nat -> index (nth n alphabet "1"%char) = Some (Z.of_nat n).
Proof.
  intros H. do 32 (destruct n as [|n]; [reflexivity|]). lia.
Qed.

Lemma index_symbol (d : Z) : digit d -> index (symbol d) = Some d.
Proof.
  intros [H0 H1]. unfold symbol. rewrite index_nth by lia. f_equal. lia.
Qed.

Lemma in_alphabet_symbol (d : Z) : in_alphabet (symbol d) = true.
Proof.
  unfold symbol. generalize (Z.to_nat d) as n. intros n.
  do 32 (destruct n as [|n]; [reflexivity|]). destruct n; reflexivity.
Qed.

Lemma in_alphabet_index (c : ascii) :
  in_alphabet c = true -> exists d, index c = Some d /\ digit d.
Proof.
  unfold in_alphabet, index, alphabet, digit. cbn [chars list_ascii_of_string existsb index_from].
  repeat match goal with
         | |- context [Ascii.eqb c ?a] =>
             rewrite (Ascii.eqb_sym c a);
             destruct (Ascii.eqb a c); [intros _; eexists; split; [reflexivity|lia]|]
         end.
  discriminate.
Qed.

Lemma indices_symbols (ds : list Z) :
  Forall digit ds -> indices (map symbol ds) = Ok ds.
Proof.
  induction 1 as [|d ds Hd _ IH]; [reflexivity|].
  cbn [map indices]. now rewrite index_symbol, IH.
Qed.

Lemma padding (L : nat) :
  let pad := ((5 - L mod 5) mod 5)%nat in
  (pad < 5)%nat /\ exists n, (pad + L = 5 * n)%nat.
Proof.
  intros pad. subst pad.
  pose proof (Nat.div_mod_eq L 5) as Hdm.
  pose proof (Nat.mod_upper_bound L 5 ltac:(lia)) as Hub.
  destruct (L mod 5)%nat as [|[|[|[|[|r]]]]] eqn:E; try lia;
    cbn; (split; [lia|]).
  - exists (L / 5)%nat. lia.
  - exists (S (L / 5)). lia.
  - exists (S (L / 5)). lia.
  - exists (S (L / 5)). lia.
  - exists (S (L / 5)). lia.
Qed.

(** Decoding undoes encoding, for byte strings of any length. *)
Lemma nbase32_round_trip (k : list byte) :
  nbase32_to_bytes (bytes_to_nbase32 k) = Ok k.
Proof.
  unfold nbase32_to_bytes, bytes_to_nbase32. rewrite chars_str.
  set (data := bytes_bits k).
  destruct (padding (List.length data)) as [Hpad [n Hn]].
  set (pad := ((5 - List.length data mod 5) mod 5)%nat) in *.
  assert (Hlen : List.length (repeat false pad ++ data) = (5 * n)%nat)
    by (rewrite length_app, repeat_length; exact Hn).
  rewrite indices_symbols by apply quintets_digits.
  cbn [bind]. rewrite (bits_quintets n) by exact Hlen.
  rewrite length_app, repeat_length.
  assert (Hmod : ((pad + List.length data) mod 8 = pad)%nat).
  { subst data. rewrite length_bytes_bits.
    rewrite (Nat.mul_comm 8), Nat.Div0.mod_add.
    apply Nat.mod_small. lia. }
  rewrite Hmod.
  rewrite skipn_app, repeat_length, Nat.sub_diag, skipn_O.
  rewrite skipn_all2 by (rewrite repeat_length; lia).
  cbn [app]. subst data. now rewrite octets_bytes_bits.
Qed.

End NBase32Facts.

(** ** Slices *)

Lemma slice_to_neg_app {A : Type} (n : nat) (a b : list A) :
  List.length b = n -> slice_to_neg n (a ++ b) = a.
Proof.
  intros H. unfold slice_to_neg. rewrite length_app, H.
  replace (List.length a + n - n)%nat with (List.length a + 0)%nat by lia.
  rewrite firstn_app_2. simpl. apply app_nil_r.
Qed.

Lemma slice_from_neg_app {A : Type} (n : nat) (a b : list A) :
  List.length b = n -> slice_from_neg n (a ++ b) = b.
Proof.
  intros H. unfold slice_from_neg. rewrite length_app, H.
  replace (List.length a + n - n)%nat with (List.length a) by lia.
  rewrite skipn_app, Nat.sub_diag, skipn_all. reflexivity.
Qed.

Lemma slice_from_app {A : Type} (n : nat) (a b : list A) :
  List.length a = n -> slice_from n (a ++ b) = b.
Proof.
  intros H. unfold slice_from. rewrite skipn_app, H, Nat.sub_diag.
  rewrite <- H, skipn_all. reflexivity.
Qed.

(** ** Shape of an encoded key and of an encoded checksum *)

Arguments blake2b : simpl never.
Arguments nl.bytes_to_nbase32 : simpl never.
Arguments nl.nbase32_to_bytes : simpl never.

Module AddressFacts.
Import nl NBase32Facts.

Lemma symbols_in_alphabet (ds : list Z) :
  forallb in_alphabet (map symbol ds) = true.
Proof.
  induction ds as [|d ds IH]; [reflexivity|].
  cbn [map forallb]. now rewrite in_alphabet_symbol, IH.
Qed.

Lemma encoded_in_alphabet (bs : list byte) :
  forallb in_alphabet (chars (bytes_to_nbase32 bs)) = true.
Proof.
  unfold bytes_to_nbase32.
  rewrite chars_str. apply symbols_in_alphabet.
Qed.

(** A 32-byte key gives 52 characters, the first of them ['1'] or ['3']. *)
Lemma encoded_key (k : list byte) :
  List.length k = 32%nat ->
  exists c body,
    chars (bytes_to_nbase32 k) = c :: body
    /\ (c = "1"%char \/ c = "3"%char)
    /\ List.length body = 51%nat
    /\ forallb in_alphabet body = true.
Proof.
  intros Hk.
  pose proof (encoded_in_alphabet k) as Hin.
  unfold bytes_to_nbase32 in *.
  rewrite chars_str in *.
  pose proof (length_bytes_bits k) as Hlen. rewrite Hk in Hlen.
  rewrite Hlen in *. change ((5 - 8 * 32 mod 5) mod 5)%nat with 4%nat in *.
  destruct (bytes_bits k) as [|x data]; [discriminate|].
  cbn [repeat app] in *. rewrite quintets_cons in *. cbn [map] in *.
  exists (symbol (value [false; false; false; false; x])),
         (map symbol (quintets data)).
  split; [reflexivity|]. split; [destruct x; [right|left]; reflexivity|].
  split.
  - rewrite length_map. apply length_quintets. simpl in Hlen. lia.
  - cbn [forallb] in Hin. now apply andb_prop in Hin.
Qed.

(** A 5-byte checksum gives 8 characters. *)
Lemma encoded_checksum (cs : list byte) :
  List.length cs = 5%nat -> List.length (chars (bytes_to_nbase32 cs)) = 8%nat.
Proof.
  intros Hc. unfold bytes_to_nbase32.
  rewrite chars_str, length_map.
  pose proof (length_bytes_bits cs) as Hlen. rewrite Hc in Hlen.
  rewrite Hlen. change ((5 - 8 * 5 mod 5) mod 5)%nat with 0%nat.
  cbn [repeat app]. apply length_quintets. exact Hlen.
Qed.

Lemma length_checksum (k : list byte) :
  List.length (rev (blake2b 5 k)) = 5%nat.
Proof. rewrite length_rev. apply length_blake2b. lia. Qed.

(** The decoder on the [nano_] form of a key. *)
Lemma decode_encoded (k : list byte) :
  List.length k = 32%nat ->
  let address := ("nano_" ++ bytes_to_nbase32 k
                    ++ bytes_to_nbase32 (rev (blake2b 5 k)))%string in
  match_address address = true
  /\ derive_public_key_from_address address = Ok (upper (hexlify k)).
Proof.
  intros Hk address.
  destruct (encoded_key k Hk) as (c & body & Hbody & Hc & Hlb & Hab).
  pose proof (encoded_checksum _ (length_checksum k)) as Hlc.
  pose proof (encoded_in_alphabet (rev (blake2b 5 k))) as Hac.
  set (B := bytes_to_nbase32 k) in *.
  set (C := bytes_to_nbase32 (rev (blake2b 5 k))) in *.
  assert (Hchars : chars address = chars "nano_" ++ (c :: body) ++ chars C).
  { subst address. now rewrite !chars_app, Hbody. }
  assert (Hmatch : match_address address = true).
  { unfold match_address. rewrite Hchars. cbn [chars list_ascii_of_string app strip_prefix].
    cbn [Ascii.eqb Bool.eqb andb].
    assert (Hl : List.length (body ++ chars C) = 59%nat)
      by (rewrite length_app, Hlb, Hlc; reflexivity).
    rewrite firstn_all2, skipn_all2 by lia.
    rewrite Hl, forallb_app, Hab, Hac.
    destruct Hc as [-> | ->]; reflexivity. }
  split; [exact Hmatch|].
  unfold derive_public_key_from_address. rewrite Hmatch. cbn [negb].
  rewrite Hchars.
  replace (chars "nano_" ++ (c :: body) ++ chars C)
    with ((chars "nano_" ++ (c :: body)) ++ chars C) by (now rewrite app_assoc).
  rewrite slice_to_neg_app, slice_from_neg_app by exact Hlc.
  rewrite slice_from_app by reflexivity.
  rewrite <- Hbody, !str_chars.
  subst B. rewrite nbase32_round_trip. cbn [bind].
  fold C. now rewrite String.eqb_refl.
Qed.

End AddressFacts.

(** ** What the decoder can return *)

Module DecoderFacts.
Import nl NBase32Facts AddressFacts.

Lemma indices_in_alphabet (l : list ascii) :
  forallb in_alphabet l = true ->
  exists ds, indices l = Ok ds /\ List.length ds = List.length l.
Proof.
  induction l as [|a l IH]; intros H.
  - exists []. split; reflexivity.
  - cbn [forallb] in H. apply andb_prop in H as [Ha Hl].
    destruct (in_alphabet_index a Ha) as (d & Hd & _).
    destruct (IH Hl) as (ds & Hds & Hlen).
    exists (d :: ds). cbn [indices]. rewrite Hd, Hds. split; [reflexivity|].
    simpl. now rewrite Hlen.
Qed.

Lemma length_flat_bits (ds : list Z) :
  List.length (flat_map (bits 5) ds) = (5 * List.length ds)%nat.
Proof.
  induction ds as [|d ds IH]; [reflexivity|].
  cbn [flat_map]. rewrite length_app, length_bits, IH. simpl. lia.
Qed.

Lemma forallb_firstn {A : Type} (f : A -> bool) (n : nat) (l : list A) :
  forallb f l = true -> forallb f (firstn n l) = true.
Proof.
  intros H. rewrite <- (firstn_skipn n l), forallb_app in H.
  now apply andb_prop in H.
Qed.

(** Fifty-two characters of the alphabet decode to thirty-two bytes. *)
Lemma decode_key_part (part : list ascii) :
  List.length part = 52%nat -> forallb in_alphabet part = true ->
  exists k, nbase32_to_bytes (str part) = Ok k /\ List.length k = 32%nat.
Proof.
  intros Hlen Hin. unfold nbase32_to_bytes. rewrite chars_str.
  destruct (indices_in_alphabet part Hin) as (ds & -> & Hds).
  cbn [bind]. eexists. split; [reflexivity|].
  pose proof (length_flat_bits ds) as Hbits. rewrite Hds, Hlen in Hbits.
  rewrite Hbits. change ((5 * 52) mod 8)%nat with 4%nat.
  apply length_octets. rewrite length_skipn, Hbits. reflexivity.
Qed.

Lemma newline_not_in_alphabet : in_alphabet newline = false.
Proof. reflexivity. Qed.

(** Whatever the decoder returns is the upper-case hex of some bytes. *)
Lemma decoded_hex (address h : string) :
  derive_public_key_from_address address = Ok h ->
  exists k, h = upper (hexlify k).
Proof.
  unfold derive_public_key_from_address.
  destruct (negb (match_address address)); [discriminate|].
  destruct (nbase32_to_bytes _) as [k|]; [|discriminate]. cbn [bind].
  destruct (negb _); [discriminate|].
  intros H; injection H as <-. now exists k.
Qed.

(** The decoder raises its own two errors (or the codec's), never the
    link error. *)
Lemma decoder_errors (address : string) :
  derive_public_key_from_address address <> Raise InvalidLinkFormat.
Proof.
  unfold derive_public_key_from_address.
  destruct (negb (match_address address)); [discriminate|].
  unfold nbase32_to_bytes.
  destruct (indices _) as [ds|e] eqn:E; cbn [bind].
  - destruct (negb _); discriminate.
  - assert (He : forall l e', indices l = Raise e' -> e' = NBase32Error).
    { clear. induction l as [|c l IH]; intros e' H; [discriminate|].
      cbn [indices] in H. destruct (index c); [|now injection H].
      destruct (indices l) as [ds|e1]; [discriminate|].
      cbn [bind] in H. injection H as <-. now apply IH. }
    rewrite (He _ _ E). discriminate.
Qed.

(** From a [nano_] address the decoder returns a 32-byte key. *)
Lemma decoded_nano_key (rest h : string) :
  derive_public_key_from_address ("nano_" ++ rest)%string = Ok h ->
  exists k, List.length k = 32%nat /\ h = upper (hexlify k).
Proof.
  unfold derive_public_key_from_address.
  destruct (match_address _) eqn:Hm; [|discriminate]. cbn [negb].
  unfold match_address in Hm. rewrite chars_app in *.
  remember (chars rest) as r eqn:Hr. clear Hr.
  change (chars "nano_")
    with ["n"; "a"; "n"; "o"; "_"]%char in *.
  change (chars "nano") with ["n"; "a"; "n"; "o"]%char in Hm.
  cbn [app strip_prefix Ascii.eqb Bool.eqb] in Hm.
  destruct r as [|c rest']; [discriminate Hm|].
  apply andb_prop in Hm as [Hm Hend]. apply andb_prop in Hm as [Hm Hall].
  apply andb_prop in Hm as [Hm Hlen]. apply andb_prop in Hm as [_ Hc].
  apply Nat.leb_le in Hlen.
  assert (Hca : in_alphabet c = true).
  { apply orb_prop in Hc as [Hc|Hc]; apply Ascii.eqb_eq in Hc; subst c; reflexivity. }
  rewrite <- (firstn_skipn 59 rest').
  assert (Hlb : List.length (firstn 59 rest') = 59%nat)
    by (rewrite length_firstn; lia).
  set (body := firstn 59 rest') in *.
  destruct (skipn 59 rest') as [|t [|t' tail]]; [| |discriminate Hend].
  - (* no newline: 65 characters *)
    rewrite app_nil_r.
    rewrite <- (firstn_skipn 51 body).
    assert (Hl51 : List.length (firstn 51 body) = 51%nat)
      by (rewrite length_firstn; lia).
    assert (Hl8 : List.length (skipn 51 body) = 8%nat)
      by (rewrite length_skipn; lia).
    change (["n"; "a"; "n"; "o"; "_"]%char ++ c :: firstn 51 body ++ skipn 51 body)
      with ((["n"; "a"; "n"; "o"; "_"]%char ++ c :: firstn 51 body) ++ skipn 51 body).
    rewrite slice_to_neg_app, slice_from_neg_app by exact Hl8.
    rewrite slice_from_app by reflexivity.
    destruct (decode_key_part (c :: firstn 51 body)) as (k & -> & Hk).
    { cbn [List.length]. now rewrite Hl51. }
    { cbn [forallb]. rewrite Hca. now apply forallb_firstn. }
    cbn [bind]. destruct (negb _); [discriminate|].
    intros H; injection H as <-. now exists k.
  - (* a final newline: the last eight characters are no checksum *)
    cbn [at_end] in Hend. apply Ascii.eqb_eq in Hend. subst t.
    rewrite <- (firstn_skipn 52 body).
    assert (Hl8 : List.length (skipn 52 body ++ [newline]) = 8%nat)
      by (rewrite length_app, length_skipn; simpl; lia).
    replace (["n"; "a"; "n"; "o"; "_"]%char
               ++ c :: (firstn 52 body ++ skipn 52 body) ++ [newline])
      with ((["n"; "a"; "n"; "o"; "_"]%char ++ c :: firstn 52 body)
              ++ (skipn 52 body ++ [newline]))
      by (simpl; now rewrite <- !app_assoc).
    rewrite slice_to_neg_app, slice_from_neg_app by exact Hl8.
    destruct (nbase32_to_bytes _) as [k|]; [|discriminate]. cbn [bind].
    destruct (String.eqb_spec (str (skipn 52 body ++ [newline]))
                (bytes_to_nbase32 (rev (blake2b 5 k)))) as [Heq|Hne];
      [|discriminate].
    apply (f_equal chars) in Heq. rewrite chars_str in Heq.
    pose proof (encoded_in_alphabet (rev (blake2b 5 k))) as Hin.
    rewrite <- Heq, forallb_app in Hin. apply andb_prop in Hin as [_ Hin].
    cbn [forallb] in Hin. rewrite newline_not_in_alphabet in Hin. discriminate Hin.
Qed.

End DecoderFacts.

(** ** Key derivation *)

Lemma be_bytes_app (a b : nat) (n : Z) :
  be_bytes (a + b) n = be_bytes a (n / 256 ^ Z.of_nat b) ++ be_bytes b n.
Proof.
  revert n; induction b as [|b IH]; intros n.
  - rewrite Nat.add_0_r. simpl. now rewrite Z.div_1_r, app_nil_r.
  - rewrite Nat.add_succ_r. cbn [be_bytes]. rewrite IH, app_assoc.
    rewrite Z.div_div by lia.
    now rewrite Nat2Z.inj_succ, Z.pow_succ_r by lia.
Qed.

Lemma be_bytes_zero (len : nat) : be_bytes len 0 = repeat x00 len.
Proof.
  induction len as [|len IH]; [reflexivity|].
  cbn [be_bytes]. change (0 / 256) with 0. rewrite IH.
  change (byte_of_Z 0) with x00. now rewrite <- repeat_cons.
Qed.

(** The four bytes that [index_in_bytes] holds for an index of 32 bits. *)
Lemma index_in_bytes_zero (index : Z) :
  0 <= index <= 2 ^ 32 - 1 ->
  slice_to_neg PRIVATE_KEY_INDEX_SIZE_BYTES (be_bytes 8 index) = [x00; x00; x00; x00].
Proof.
  intros H. change 8%nat with (4 + 4)%nat. rewrite be_bytes_app.
  rewrite slice_to_neg_app by apply length_be_bytes.
  rewrite Z.div_small by (change (256 ^ Z.of_nat 4) with (2 ^ 32); lia).
  apply be_bytes_zero.
Qed.

(** What the code hashes: the seed and four zero bytes, for every index it
    accepts. *)
Lemma generated_from_zero_index (vk : list byte -> list byte)
      (seed : string) (index : Z) :
  0 <= index <= 2 ^ 32 - 1 ->
  generate_public_private_key_pairs vk seed index
  = (seed_bytes <- unhexlify seed ;;
     let private_key := blake2b 32 (seed_bytes ++ [x00; x00; x00; x00]) in
     Ok (upper (hexlify private_key), upper (hexlify (vk private_key)))).
Proof.
  intros Hi. unfold generate_public_private_key_pairs.
  destruct (index >? 2 ^ 32 - 1) eqn:E; [lia|].
  unfold to_bytes.
  destruct (index <? 0) eqn:E1; [lia|].
  destruct (256 ^ Z.of_nat 8 <=? index) eqn:E2;
    [change (256 ^ Z.of_nat 8) with (2 ^ 64) in E2; lia|].
  cbn [orb bind]. now rewrite index_in_bytes_zero.
Qed.

(** The private key as the specification words it: the digest of the seed
    bytes and the low-order four bytes of the 8-byte big-endian index. *)
Definition spec_private_key (seed_bytes : list byte) (index : Z) : list byte :=
  blake2b 32 (seed_bytes ++ skipn 4 (be_bytes 8 index)).

Definition zero_seed : string :=
  "0000000000000000000000000000000000000000000000000000000000000000".

(** C1 (fails on the code): at the 32-byte seed of zeros and index 1 the
    private key returned is the digest of the seed and FOUR ZERO bytes (the
    high-order half of the 8-byte index); it is not the digest of the seed
    and the low-order four bytes [00 00 00 01]. *)
Theorem private_key_ignores_index :
  forall vk : list byte -> list byte,
  exists public_key,
    generate_public_private_key_pairs vk zero_seed 1
    = Ok ("9F0E444C69F77A49BD0BE89DB92C38FE713E0963165CCA12FAF5712D7657120F",
          public_key)
    /\ upper (hexlify (blake2b 32 (repeat x00 32 ++ [x00; x00; x00; x00])))
       = "9F0E444C69F77A49BD0BE89DB92C38FE713E0963165CCA12FAF5712D7657120F"
    /\ upper (hexlify (spec_private_key (repeat x00 32) 1))
       = "B73B723BF7BD042B66AD3332718BA98DE7312F95ED3D05A130C9204552A7AFFF".
Proof.
  intros vk.
  assert (Hp : upper (hexlify (blake2b 32 (repeat x00 32 ++ [x00; x00; x00; x00])))
               = "9F0E444C69F77A49BD0BE89DB92C38FE713E0963165CCA12FAF5712D7657120F")
    by (vm_compute; reflexivity).
  eexists. split; [|split; [exact Hp | vm_compute; reflexivity]].
  rewrite (generated_from_zero_index vk zero_seed 1) by lia.
  change (unhexlify zero_seed) with (Ok (repeat x00 32)).
  cbn [bind]. cbv zeta. rewrite Hp. reflexivity.
Qed.

(** C2 (fails on the code): for one seed, all indices from 0 to 2^32-1 give
    the same key pair, because the same bytes are fed to the hash. *)
Theorem key_pair_same_for_all_indices :
  forall (vk : list byte -> list byte) (seed : string) (i j : Z),
    0 <= i <= 2 ^ 32 - 1 -> 0 <= j <= 2 ^ 32 - 1 ->
    generate_public_private_key_pairs vk seed i
    = generate_public_private_key_pairs vk seed j.
Proof.
  intros vk seed i j Hi Hj.
  now rewrite !(generated_from_zero_index vk seed) by assumption.
Qed.

Lemma key_pair_same_for_all_indices_witness :
  generate_public_private_key_pairs (fun k => k) zero_seed 0
  = generate_public_private_key_pairs (fun k => k) zero_seed 1.
Proof.
  apply (key_pair_same_for_all_indices (fun k => k) zero_seed 0 1); lia.
Defined.

(** ** Addresses *)

Definition example_address : string :=
  "nano_16odwi933gpzmkgdcy9tt5zef5ka3jcfubc97fwypsokg7sji4mb9n6qtbme".

Definition example_key : string :=
  "12ABE40E10BADF9C9CB578FAD0FEC68E480C54DDA5472B79EB66B27173180A69".

Definition bytes_of_hex (s : string) : list byte :=
  match unhexlify s with
  | Ok bs => bs
  | Raise _ => []
  end.

(** C8: for every 32-byte public key [k], given in hex, the address made by
    [derive_address_from_public_key] passes the format check, its checksum
    matches, and [derive_public_key_from_address] returns [k] (in upper-case
    hex, which [unhexlify] takes back to the bytes of [k]). *)
Theorem address_round_trip :
  forall (public_key : string) (k : list byte),
    unhexlify public_key = Ok k -> List.length k = 32%nat ->
    exists address,
      derive_address_from_public_key public_key = Ok address
      /\ match_address address = true
      /\ derive_public_key_from_address address = Ok (upper (hexlify k))
      /\ unhexlify (upper (hexlify k)) = Ok k.
Proof.
  intros public_key k Hhex Hlen.
  destruct (AddressFacts.decode_encoded k Hlen) as [Hmatch Hdecode].
  eexists. unfold derive_address_from_public_key. rewrite Hhex. cbn [bind].
  split; [reflexivity|]. split; [exact Hmatch|]. split; [exact Hdecode|].
  apply unhexlify_upper_hexlify.
Qed.

Lemma address_round_trip_witness :
  exists address,
    derive_address_from_public_key example_key = Ok address
    /\ match_address address = true
    /\ derive_public_key_from_address address = Ok example_key.
Proof.
  destruct (address_round_trip example_key (bytes_of_hex example_key))
    as (address & H1 & H2 & H3 & _).
  - vm_compute. reflexivity.
  - vm_compute. reflexivity.
  - exists address. split; [exact H1|]. split; [exact H2|].
    rewrite H3. vm_compute. reflexivity.
Defined.

(** C5 (fails on the code): the [xrb_] form of a valid address passes the
    format check, but the decoder cuts five characters off its front as if
    the prefix were [nano_]; it decodes the remaining fifty-one characters
    and rejects the address, where the [nano_] form returns the key. *)
Theorem xrb_prefix_is_not_decoded :
  derive_public_key_from_address
    "nano_16odwi933gpzmkgdcy9tt5zef5ka3jcfubc97fwypsokg7sji4mb9n6qtbme"
  = Ok "12ABE40E10BADF9C9CB578FAD0FEC68E480C54DDA5472B79EB66B27173180A69"
  /\ match_address
       "xrb_16odwi933gpzmkgdcy9tt5zef5ka3jcfubc97fwypsokg7sji4mb9n6qtbme" = true
  /\ derive_public_key_from_address
       "xrb_16odwi933gpzmkgdcy9tt5zef5ka3jcfubc97fwypsokg7sji4mb9n6qtbme"
     = Raise ChecksumMismatch.
Proof. split; [|split]; vm_compute; reflexivity. Qed.

(** ** Block serialisation *)

Lemma header_bytes : STATE_BLOCK_HEADER_BYTES = repeat x00 31 ++ [x06].
Proof. vm_compute. reflexivity. Qed.

Lemma upper_hexlify_inj (a b : list byte) :
  upper (hexlify a) = upper (hexlify b) -> a = b.
Proof.
  intros H. apply (f_equal unhexlify) in H.
  rewrite !unhexlify_upper_hexlify in H. now injection H.
Qed.

Lemma only_zeros_match_hex (s : string) : only_zeros s = true -> match_hex s = true.
Proof.
  unfold only_zeros, match_hex. destruct (chars s) as [|c l]; [discriminate|].
  cbn [forallb]. intros H. apply andb_prop in H as [Hc Hl].
  apply Ascii.eqb_eq in Hc. subst c.
  assert (Hd : drop_while is_hex l = []).
  { induction l as [|d l IH]; [reflexivity|].
    cbn [forallb] in Hl. apply andb_prop in Hl as [Hd Hl].
    apply Ascii.eqb_eq in Hd. subst d. cbn [drop_while].
    change (is_hex "0") with true. cbn iota. now apply IH. }
  rewrite Hd. reflexivity.
Qed.

Definition example_block : Block :=
  mkBlock "state"
          "nano_16odwi933gpzmkgdcy9tt5zef5ka3jcfubc97fwypsokg7sji4mb9n6qtbme"
          "0000000000000000000000000000000000000000000000000000000000000000"
          "nano_1wenanoqm7xbypou7x3nue1isaeddamjdnc3z99tekjbfezdbq8fmb659o7t"
          "123000000000000000000000000"
          "785A65D2125806A9AFF251D60F39F1C80FD39FD1F125FACD7E6293FD33359B55"
          "" "".

(** The header as the specification words it: thirty-two zero bytes, then
    one marker byte. *)
Definition spec_header (bs : list byte) : Prop :=
  exists marker rest, bs = repeat x00 32 ++ marker :: rest.




(** ** Links *)

(** The three legal shapes of a link as the specification words them: a
    syntactically valid address, exactly 64 hex characters that are not all
    zero, or exactly 64 ['0'] characters. *)
Definition spec_legal_link (s : string) : bool :=
  match_address s
  || ((String.length s =? 64)%nat && forallb is_hex (chars s)
      && negb (forallb (Ascii.eqb "0") (chars s)))
  || ((String.length s =? 64)%nat && forallb (Ascii.eqb "0") (chars s)).

Definition with_link (blk : Block) (l : string) : Block :=
  mkBlock (type blk) (account blk) (previous blk) (representative blk)
          (balance blk) l (signature blk) (work blk).

Definition with_previous (blk : Block) (p : string) : Block :=
  mkBlock (type blk) (account blk) p (representative blk)
          (balance blk) (link blk) (signature blk) (work blk).

(** The fields that [create_block_hash] reads before the link. *)
Definition other_fields_ok (blk : Block) : bool :=
  is_ok (derive_public_key_from_address (account blk))
  && is_ok (derive_public_key_from_address (representative blk))
  && is_ok (unhexlify (previous blk))
  && is_ok (n <- int_of_str (balance blk) ;; to_bytes n BALANCE_SIZE_BYTES).




(** ** Proof of work *)

Lemma all_zero_chars (l : list ascii) :
  forallb (Ascii.eqb "0") l = true -> l = repeat "0"%char (List.length l).
Proof.
  induction l as [|c l IH]; [reflexivity|].
  cbn [forallb]. intros H. apply andb_prop in H as [Hc Hl].
  apply Ascii.eqb_eq in Hc. subst c. simpl. now rewrite <- IH.
Qed.

(** [only_zeros] holds of the non-empty strings of ['0'] characters. *)
Lemma only_zeros_spec (s : string) :
  only_zeros s = true
  <-> exists n, (0 < n)%nat /\ s = str (repeat "0"%char n).
Proof.
  unfold only_zeros. split.
  - destruct (chars s) as [|c l] eqn:E; [discriminate|].
    intros H. exists (List.length (c :: l)). split; [simpl; lia|].
    apply all_zero_chars in H. rewrite <- H, <- E. symmetry. apply str_chars.
  - intros (n & Hn & ->). rewrite chars_str.
    destruct n as [|n]; [lia|]. cbn [repeat].
    clear Hn. cbn [forallb]. change (Ascii.eqb "0" "0") with true. cbn [andb].
    induction n as [|n IH]; [reflexivity|]. cbn [repeat forallb].
    change (Ascii.eqb "0" "0") with true. exact IH.
Qed.

(** C9, as stated, fails: with [previous] the two characters ["00"], which
    is not the string of 64 ['0'] characters, the base is the account's
    public key, not the raw byte of [previous]. *)
Lemma short_zero_previous_uses_account_key :
  previous (with_previous example_block "00")
  <> "0000000000000000000000000000000000000000000000000000000000000000"
  /\ work_base (with_previous example_block "00") = Ok (bytes_of_hex example_key)
  /\ unhexlify (previous (with_previous example_block "00")) = Ok [x00]
  /\ bytes_of_hex example_key <> [x00].
Proof.
  split; [discriminate|]. split; [vm_compute; reflexivity|].
  split; [reflexivity|]. vm_compute. discriminate.
Qed.

(** C9, amended: when [previous] is a non-empty string of ['0'] characters,
    of any length, the proof-of-work base of [compute_work] and
    [validate_work] is the account's decoded public key (and the decoder's
    error, if the account does not decode); for every other [previous] it
    is the raw bytes of [previous]. *)
Theorem work_base_selection :
  forall blk : Block,
    ((exists n, (0 < n)%nat /\ previous blk = str (repeat "0"%char n)) ->
     (forall h, derive_public_key_from_address (account blk) = Ok h ->
        exists k, h = upper (hexlify k) /\ work_base blk = Ok k)
     /\ (forall e, derive_public_key_from_address (account blk) = Raise e ->
           work_base blk = Raise e))
    /\ ((forall n, (0 < n)%nat -> previous blk <> str (repeat "0"%char n)) ->
        work_base blk = unhexlify (previous blk)).
Proof.
  intros blk. unfold work_base, get_block_hash. split.
  - intros Hz. apply only_zeros_spec in Hz. rewrite Hz. split.
    + intros h Hh. destruct (DecoderFacts.decoded_hex _ _ Hh) as [k ->].
      exists k. split; [reflexivity|]. rewrite Hh. cbn [bind].
      apply unhexlify_upper_hexlify.
    + intros e He. now rewrite He.
  - intros Hn. destruct (only_zeros (previous blk)) eqn:Ez; [|reflexivity].
    apply only_zeros_spec in Ez as (n & Hpos & Hp). now destruct (Hn n Hpos).
Qed.

Lemma work_base_selection_witness :
  work_base example_block = Ok (bytes_of_hex example_key)
  /\ work_base (with_previous example_block example_key)
     = Ok (bytes_of_hex example_key).
Proof.
  split.
  - destruct (work_base_selection example_block) as [H _].
    destruct H as [H _]; [exists 64%nat; split; [lia|reflexivity]|].
    destruct (H example_key) as (k & Hk & Hw); [vm_compute; reflexivity|].
    rewrite Hw. f_equal. apply upper_hexlify_inj. rewrite <- Hk.
    vm_compute. reflexivity.
  - destruct (work_base_selection (with_previous example_block example_key))
      as [_ H].
    rewrite H; [vm_compute; reflexivity|].
    intros n Hn Heq. apply (f_equal (fun s => String.get 0 s)) in Heq.
    destruct n as [|n]; [lia|]. discriminate Heq.
Defined.

(** What a successful search returns: the hex of one of the draws, whose
    work reaches the difficulty. *)
Lemma search_nonce_found (base : list byte) (difficulty : string)
      (draws : list Z) (nonce : string) :
  search_nonce base difficulty draws = Ok (Some nonce) ->
  exists r,
    In r draws /\ 0 <= r <= MAX_NONCE_SIZE
    /\ nonce = hexlify (be_bytes 8 r)
    /\ str_ge (hexlify (rev (blake2b WORK_SIZE_BYTES (rev (be_bytes 8 r) ++ base))))
              difficulty = true.
Proof.
  induction draws as [|r draws IH]; [discriminate|].
  cbn [search_nonce].
  destruct (to_bytes r 8) as [cb|] eqn:Eb; [|discriminate]. cbn [bind]. cbv zeta.
  apply to_bytes_ok in Eb as [-> Hr].
  destruct (str_ge _ difficulty) eqn:Ege.
  - intros H. injection H as <-. exists r.
    split; [now left|]. split.
    + unfold MAX_NONCE_SIZE. change (256 ^ Z.of_nat 8) with (2 ^ 64) in Hr. lia.
    + split; [reflexivity|exact Ege].
  - intros H. destruct (IH H) as (r' & Hin & Hrest).
    exists r'. split; [now right|exact Hrest].
Qed.

Lemma hexlify_not_empty (bs : list byte) :
  bs <> [] -> String.eqb (hexlify bs) "" = false.
Proof.
  intros H. apply String.eqb_neq. intros E.
  apply (f_equal String.length) in E. rewrite length_hexlify in E.
  destruct bs; [congruence|]. simpl in E. lia.
Qed.

(** C7: a nonce that [compute_work] returns is one that [validate_work]
    accepts for the same block and difficulty; it is the 16-digit hex of one
    of the drawn candidates, in its original byte order. *)
Theorem validate_agrees_with_search :
  forall (blk : Block) (difficulty : string) (draws : list Z) (nonce : string),
    compute_work blk difficulty draws = Ok (Some nonce) ->
    validate_work blk (Some nonce) difficulty = Ok true
    /\ exists r, In r draws /\ 0 <= r <= MAX_NONCE_SIZE
                 /\ nonce = hexlify (be_bytes 8 r).
Proof.
  intros blk difficulty draws nonce H.
  unfold compute_work in H.
  destruct (work_base blk) as [base|] eqn:Eb; [|discriminate H].
  cbn [bind] in H.
  destruct (search_nonce base difficulty draws) as [[n|]|] eqn:Es;
    [| discriminate H | discriminate H].
  cbn [bind] in H.
  destruct (String.eqb n "") eqn:En; [discriminate H|].
  injection H as ->.
  destruct (search_nonce_found _ _ _ _ Es) as (r & Hin & Hr & Hn & Hge).
  split; [|exists r; auto].
  unfold validate_work. rewrite En, Eb. cbn [bind].
  rewrite Hn, unhexlify_hexlify. cbn [bind]. now rewrite Hge.
Qed.

Lemma validate_agrees_with_search_witness :
  compute_work example_block "f000000000000000" [1; 2; 3]
  = Ok (Some "0000000000000003")
  /\ validate_work example_block (Some "0000000000000003") "f000000000000000"
     = Ok true.
Proof.
  assert (H : compute_work example_block "f000000000000000" [1; 2; 3]
              = Ok (Some "0000000000000003")) by (vm_compute; reflexivity).
  split; [exact H|].
  exact (proj1 (validate_agrees_with_search _ _ _ _ H)).
Defined.

(** C10: [validate_work] returns [False], and raises nothing, when the
    nonce is [None] or the empty string, whatever the block; so the outcome
    of a search that timed out can be passed to it. *)
Theorem validate_work_without_nonce :
  forall (blk : Block) (difficulty : string) (nonce : option string),
    nonce = None \/ nonce = Some "" ->
    validate_work blk nonce difficulty = Ok false.
Proof.
  intros blk difficulty nonce [-> | ->]; reflexivity.
Qed.

Lemma validate_work_without_nonce_witness :
  compute_work example_block MINIMUM_NETWORK_DIFFICULTY [1; 2] = Ok None
  /\ validate_work example_block None MINIMUM_NETWORK_DIFFICULTY = Ok false.
Proof.
  split; [vm_compute; reflexivity|].
  apply (validate_work_without_nonce example_block MINIMUM_NETWORK_DIFFICULTY None).
  left. reflexivity.
Defined.

(** ** The threshold comparison *)

Definition is_lower_hex (c : ascii) : bool := is_digit c || in_range "a" "f" c.

Definition digit_value (c : ascii) : Z :=
  match hex_value c with
  | Some d => d
  | None => 0
  end.

Definition hex_number (l : list ascii) : Z :=
  fold_left (fun acc c => 16 * acc + digit_value c) l 0.

(** [int(s, 16)] on a non-empty string of hex digits: the threshold that a
    difficulty string stands for. *)
Definition int_of_hex (s : string) : option Z :=
  match chars s with
  | [] => None
  | l => if forallb is_hex l then Some (hex_number l) else None
  end.

(** The comparison as the specification words it: the value read as a
    big-endian integer against the threshold. *)
Definition spec_work_sufficient (value : list byte) (difficulty : string)
  : option bool :=
  option_map (fun t => from_bytes value >=? t) (int_of_hex difficulty).

Lemma lower_hex_cases (c : ascii) :
  is_lower_hex c = true ->
  (48 <= Z_of_ascii c <= 57 /\ digit_value c = Z_of_ascii c - 48)
  \/ (97 <= Z_of_ascii c <= 102 /\ digit_value c = Z_of_ascii c - 87).
Proof.
  unfold is_lower_hex, digit_value, hex_value, is_digit, in_range.
  change (Z_of_ascii "0") with 48. change (Z_of_ascii "9") with 57.
  change (Z_of_ascii "a") with 97. change (Z_of_ascii "f") with 102.
  set (x := Z_of_ascii c).
  destruct (48 <=? x) eqn:E1, (x <=? 57) eqn:E2; cbn [andb orb];
    try (intros _; left; lia);
    destruct (97 <=? x) eqn:E3, (x <=? 102) eqn:E4; cbn [andb orb];
    try discriminate; intros _; right; lia.
Qed.

Lemma lower_hex_is_hex (c : ascii) : is_lower_hex c = true -> is_hex c = true.
Proof.
  unfold is_lower_hex, is_hex.
  destruct (is_digit c), (in_range "a" "f" c), (in_range "A" "F" c);
    cbn; congruence.
Qed.

Lemma ascii_compare_lower_hex (c d : ascii) :
  is_lower_hex c = true -> is_lower_hex d = true ->
  Ascii.compare c d = (digit_value c ?= digit_value d).
Proof.
  intros Hc Hd.
  assert (E : Ascii.compare c d = (Z_of_ascii c ?= Z_of_ascii d))
    by (unfold Ascii.compare, Z_of_ascii; now rewrite N2Z.inj_compare).
  rewrite E.
  destruct (lower_hex_cases c Hc) as [[Hc1 ->]|[Hc1 ->]],
           (lower_hex_cases d Hd) as [[Hd1 ->]|[Hd1 ->]];
    destruct (Z.compare_spec (Z_of_ascii c) (Z_of_ascii d));
    symmetry; first [apply Z.compare_eq_iff | apply Z.compare_lt_iff
                    | apply Z.compare_gt_iff]; lia.
Qed.

Lemma hex_number_from (acc : Z) (l : list ascii) :
  fold_left (fun a c => 16 * a + digit_value c) l acc
  = acc * 16 ^ Z.of_nat (List.length l) + hex_number l.
Proof.
  unfold hex_number. revert acc.
  induction l as [|c l IH]; intros acc; [simpl; lia|].
  cbn [fold_left List.length]. rewrite (IH (16 * acc + digit_value c)).
  rewrite (IH (16 * 0 + digit_value c)).
  rewrite Nat2Z.inj_succ, Z.pow_succ_r by lia. ring.
Qed.

Lemma hex_number_cons (c : ascii) (l : list ascii) :
  hex_number (c :: l) = digit_value c * 16 ^ Z.of_nat (List.length l) + hex_number l.
Proof. unfold hex_number at 1. cbn [fold_left]. now rewrite hex_number_from. Qed.

Lemma hex_number_bound (l : list ascii) :
  forallb is_lower_hex l = true ->
  0 <= hex_number l < 16 ^ Z.of_nat (List.length l).
Proof.
  induction l as [|c l IH]; [intros _; cbv; split; congruence|].
  cbn [forallb]. intros H. apply andb_prop in H as [Hc Hl].
  specialize (IH Hl). rewrite hex_number_cons.
  cbn [List.length]. rewrite Nat2Z.inj_succ, Z.pow_succ_r by lia.
  destruct (lower_hex_cases c Hc) as [[Hc1 Hv]|[Hc1 Hv]]; nia.
Qed.

(** On lower-case hex strings of one length the order of the texts is the
    order of the numbers. *)
Lemma compare_lower_hex (a b : string) :
  String.length a = String.length b ->
  forallb is_lower_hex (chars a) = true ->
  forallb is_lower_hex (chars b) = true ->
  String.compare a b = (hex_number (chars a) ?= hex_number (chars b)).
Proof.
  revert b. induction a as [|c a IH]; intros [|d b] Hlen Ha Hb;
    try discriminate Hlen; [reflexivity|].
  change (chars (String c a)) with (c :: chars a) in *.
  change (chars (String d b)) with (d :: chars b) in *.
  cbn [forallb] in Ha, Hb.
  apply andb_prop in Ha as [Hc Ha]. apply andb_prop in Hb as [Hd Hb].
  injection Hlen as Hlen. specialize (IH b Hlen Ha Hb).
  cbn [String.compare]. rewrite (ascii_compare_lower_hex c d Hc Hd), IH.
  rewrite !hex_number_cons, !length_chars, Hlen.
  pose proof (hex_number_bound _ Ha) as Ba.
  pose proof (hex_number_bound _ Hb) as Bb.
  rewrite !length_chars, Hlen in *.
  set (p := 16 ^ Z.of_nat (String.length b)) in *.
  destruct (Z.compare_spec (digit_value c) (digit_value d)) as [E|E|E].
  - rewrite E.
    destruct (Z.compare_spec (hex_number (chars a)) (hex_number (chars b)));
      symmetry; first [apply Z.compare_eq_iff | apply Z.compare_lt_iff
                      | apply Z.compare_gt_iff]; lia.
  - symmetry. apply Z.compare_lt_iff. nia.
  - symmetry. apply Z.compare_gt_iff. nia.
Qed.

Lemma hexlify_lower_hex (bs : list byte) :
  forallb is_lower_hex (hexlify_chars bs) = true.
Proof.
  induction bs as [|b bs IH]; [reflexivity|].
  cbn [hexlify_chars flat_map app forallb]. fold (hexlify_chars bs).
  rewrite IH. destruct b; reflexivity.
Qed.

Lemma digit_value_hex_char (b : byte) :
  digit_value (hex_char (Z_of_byte b / 16)) = Z_of_byte b / 16
  /\ digit_value (hex_char (Z_of_byte b mod 16)) = Z_of_byte b mod 16.
Proof. destruct b; split; reflexivity. Qed.

Lemma hex_number_hexlify (bs : list byte) :
  hex_number (hexlify_chars bs) = from_bytes bs.
Proof.
  unfold hex_number, from_bytes. generalize 0 as acc.
  induction bs as [|b bs IH]; intros acc; [reflexivity|].
  cbn [hexlify_chars flat_map app fold_left]. fold (hexlify_chars bs).
  rewrite IH. f_equal.
  destruct (digit_value_hex_char b) as [-> ->].
  pose proof (Z.div_mod (Z_of_byte b) 16 ltac:(lia)). lia.
Qed.

(** The text comparison of a work value with a 16-digit lower-case
    difficulty is the comparison of the two numbers. *)
Lemma str_ge_numeric (value : list byte) (difficulty : string) :
  List.length value = 8%nat ->
  String.length difficulty = 16%nat ->
  forallb is_lower_hex (chars difficulty) = true ->
  str_ge (hexlify value) difficulty = true
  <-> from_bytes value >= hex_number (chars difficulty).
Proof.
  intros Hv Hd Hl. unfold str_ge.
  rewrite compare_lower_hex.
  - unfold hexlify. rewrite chars_str, hex_number_hexlify.
    destruct (Z.compare_spec (from_bytes value) (hex_number (chars difficulty)));
      split; intros; try reflexivity; try discriminate; lia.
  - rewrite length_hexlify, Hv, Hd. reflexivity.
  - unfold hexlify. rewrite chars_str. apply hexlify_lower_hex.
  - exact Hl.
Qed.

Lemma int_of_hex_lower (s : string) :
  s <> "" -> forallb is_lower_hex (chars s) = true ->
  int_of_hex s = Some (hex_number (chars s)).
Proof.
  intros Hs Hl. unfold int_of_hex.
  destruct (chars s) as [|c l] eqn:E.
  - destruct s; [congruence|discriminate E].
  - assert (Hh : forallb is_hex (c :: l) = true).
    { clear E. revert Hl. generalize (c :: l) as m.
      induction m as [|x m IH]; [reflexivity|]. cbn [forallb].
      intros H. apply andb_prop in H as [Hx Hm].
      now rewrite (lower_hex_is_hex x Hx), IH. }
    now rewrite Hh.
Qed.

(** C6, as stated, fails: the difficulty and the work value are compared as
    texts.  With the threshold written in upper case, the nonce
    ["0000000000000000"] of [example_block] is accepted although its work
    value f947af6b479789e9 is below the threshold fffffff800000000. *)
Lemma upper_case_difficulty_is_compared_as_text :
  validate_work example_block (Some "0000000000000000") "FFFFFFF800000000"
  = Ok true
  /\ work_base example_block = Ok (bytes_of_hex example_key)
  /\ hexlify (rev (blake2b 8 (rev (bytes_of_hex "0000000000000000")
                                ++ bytes_of_hex example_key)))
     = "f947af6b479789e9"
  /\ int_of_hex "FFFFFFF800000000" = Some 0xFFFFFFF800000000
  /\ spec_work_sufficient
       (rev (blake2b 8 (rev (bytes_of_hex "0000000000000000")
                          ++ bytes_of_hex example_key)))
       "FFFFFFF800000000"
     = Some false.
Proof. split; [|split; [|split; [|split]]]; vm_compute; reflexivity. Qed.

(** C6, amended: for a non-empty hex nonce, [validate_work] returns whether
    the lower-case 16-digit hex text of the byte-reversed 8-byte digest of
    (byte-reversed nonce, work base) is, as a text, greater than or equal to
    the difficulty string.  When the difficulty is written as sixteen
    lower-case hex digits this is the comparison of the value, read as a
    big-endian 64-bit integer, with the threshold; in particular, with
    difficulty fffffff800000000 the value fffffff900000000 is sufficient and
    fffffff700000000 is not. *)
Theorem validate_work_threshold :
  forall (blk : Block) (nonce difficulty : string)
         (nonce_bytes base : list byte),
    nonce <> "" -> unhexlify nonce = Ok nonce_bytes -> work_base blk = Ok base ->
    let value := rev (blake2b 8 (rev nonce_bytes ++ base)) in
    validate_work blk (Some nonce) difficulty
    = Ok (str_ge (hexlify value) difficulty)
    /\ (String.length difficulty = 16%nat ->
        forallb is_lower_hex (chars difficulty) = true ->
        exists threshold,
          int_of_hex difficulty = Some threshold
          /\ (validate_work blk (Some nonce) difficulty = Ok true
              <-> from_bytes value >= threshold))
    /\ (hexlify value = "fffffff900000000" ->
        validate_work blk (Some nonce) "fffffff800000000" = Ok true)
    /\ (hexlify value = "fffffff700000000" ->
        validate_work blk (Some nonce) "fffffff800000000" = Ok false).
Proof.
  intros blk nonce difficulty nb base Hne Hn Hb value.
  assert (Hv : forall d, validate_work blk (Some nonce) d
                         = Ok (str_ge (hexlify value) d)).
  { intros d. unfold validate_work.
    apply String.eqb_neq in Hne. rewrite Hne, Hb. cbn [bind]. rewrite Hn.
    cbn [bind]. cbv zeta. unfold value, WORK_SIZE_BYTES.
    now destruct (str_ge _ d). }
  split; [apply Hv|]. split; [|split].
  - intros Hl Hd. exists (hex_number (chars difficulty)).
    split.
    + apply int_of_hex_lower; [|exact Hd]. intros ->. discriminate Hl.
    + rewrite Hv. rewrite <- (str_ge_numeric value difficulty); [| |exact Hl|exact Hd].
      * split; [intros H; now injection H | intros H; now f_equal].
      * subst value. rewrite length_rev. apply length_blake2b. lia.
  - intros E. now rewrite Hv, E.
  - intros E. now rewrite Hv, E.
Qed.

Lemma validate_work_threshold_witness :
  validate_work example_block (Some "0000000000000003") "f000000000000000"
  = Ok true
  /\ from_bytes (rev (blake2b 8 (rev (bytes_of_hex "0000000000000003")
                                   ++ bytes_of_hex example_key)))
     >= 0xf000000000000000.
Proof.
  destruct (validate_work_threshold example_block "0000000000000003"
              "f000000000000000" (bytes_of_hex "0000000000000003")
              (bytes_of_hex example_key))
    as (H1 & H2 & _).
  - discriminate.
  - reflexivity.
  - vm_compute. reflexivity.
  - destruct H2 as (t & Ht & Hiff); [reflexivity | reflexivity |].
    assert (Hv : validate_work example_block (Some "0000000000000003")
                   "f000000000000000" = Ok true) by (vm_compute; reflexivity).
    split; [exact Hv|].
    apply Hiff in Hv. vm_compute in Ht. injection Ht as <-. exact Hv.
Defined.

(** * Further properties of the library code *)

(** ** Key derivation: bounds and failures *)

(** X1: An index above 2^32 - 1 is refused by the guard, whatever the seed.  The
    guard has no lower bound: a negative index passes it and makes
    [to_bytes] raise OverflowError. *)
Theorem key_pair_index_out_of_range :
  forall (vk : list byte -> list byte) (seed : string) (index : Z),
    index < 0 \/ 2 ^ 32 - 1 < index ->
    generate_public_private_key_pairs vk seed index
    = Raise (if index <? 0 then OverflowError else IndexOutOfRange).
Proof.
  intros vk seed index H. unfold generate_public_private_key_pairs, to_bytes.
  destruct (index >? 2 ^ 32 - 1) eqn:E1.
  - destruct (index <? 0) eqn:E2; [lia|reflexivity].
  - destruct (index <? 0) eqn:E2; [reflexivity|lia].
Qed.

Lemma key_pair_index_out_of_range_witness :
  generate_public_private_key_pairs (fun k => k) "not hex" 4294967296
  = Raise IndexOutOfRange
  /\ generate_public_private_key_pairs (fun k => k) zero_seed (-1)
     = Raise OverflowError.
Proof.
  split.
  - apply (key_pair_index_out_of_range (fun k => k) "not hex" 4294967296). lia.
  - apply (key_pair_index_out_of_range (fun k => k) zero_seed (-1)). lia.
Defined.

Lemma unhexlify_chars_error (l : list ascii) (e : exn) :
  unhexlify_chars l = Raise e -> e = BinasciiError.
Proof.
  assert (Hall : forall n l, (List.length l <= n)%nat ->
            unhexlify_chars l = Raise e -> e = BinasciiError).
  { clear l. induction n as [|n IH]; intros l Hle H.
    - destruct l; [discriminate H|simpl in Hle; lia].
    - destruct l as [|hi [|lo rest]]; simpl in H.
      + discriminate H.
      + now injection H.
      + destruct (hex_value hi); [|now injection H].
        destruct (hex_value lo); [|now injection H].
        destruct (unhexlify_chars rest) as [bs|e'] eqn:E; [discriminate H|].
        cbn [bind] in H. injection H as ->.
        apply (IH rest); [simpl in Hle; lia | exact E]. }
  apply (Hall (List.length l)). lia.
Qed.



(** ** Seed generation *)

Lemma upper_char_idempotent (c : ascii) : upper_char (upper_char c) = upper_char c.
Proof. destruct c as [[] [] [] [] [] [] [] []]; reflexivity. Qed.

Lemma upper_idempotent (s : string) : upper (upper s) = upper s.
Proof.
  unfold upper. rewrite chars_str, map_map. f_equal.
  apply map_ext. intros c. apply upper_char_idempotent.
Qed.

(** X3: A generated seed is the entropy written as 64 upper-case hex digits: it
    decodes back to the 32 random bytes, and key derivation accepts it for
    every index of 32 bits. *)
Theorem generate_seed_is_usable :
  forall (entropy : list byte) (vk : list byte -> list byte) (index : Z),
    List.length entropy = SEED_SIZE_BYTES -> 0 <= index <= 2 ^ 32 - 1 ->
    String.length (generate_seed entropy) = 64%nat
    /\ unhexlify (generate_seed entropy) = Ok entropy
    /\ upper (generate_seed entropy) = generate_seed entropy
    /\ is_ok (generate_public_private_key_pairs vk (generate_seed entropy) index)
       = true.
Proof.
  intros entropy vk index Hl Hi. unfold generate_seed, b16encode.
  rewrite !upper_idempotent.
  split; [now rewrite length_upper, length_hexlify, Hl|].
  split; [apply unhexlify_upper_hexlify|]. split; [reflexivity|].
  rewrite (generated_from_zero_index vk _ index Hi).
  now rewrite unhexlify_upper_hexlify.
Qed.

Lemma generate_seed_is_usable_witness :
  unhexlify (generate_seed (repeat xab 32)) = Ok (repeat xab 32)
  /\ generate_seed (repeat xab 32)
     = "ABABABABABABABABABABABABABABABABABABABABABABABABABABABABABABABAB".
Proof.
  split.
  - apply (generate_seed_is_usable (repeat xab 32) (fun k => k) 0); [reflexivity|lia].
  - vm_compute. reflexivity.
Defined.

(** ** Addresses: checksum, canonical form and the [xrb_] prefix *)

Module CodecFacts.
Import nl NBase32Facts AddressFacts DecoderFacts.

Lemma str_app (a b : list ascii) : str (a ++ b) = (str a ++ str b)%string.
Proof.
  unfold str. induction a as [|c a IH]; [reflexivity|].
  simpl. now rewrite IH.
Qed.

Lemma symbol_index (c : ascii) (d : Z) : index c = Some d -> symbol d = c.
Proof.
  unfold index, alphabet. cbn [chars list_ascii_of_string index_from].
  repeat match goal with
         | |- context [Ascii.eqb ?a c] =>
             destruct (Ascii.eqb_spec a c) as [<-|_];
             [intros H; injection H as <-; reflexivity|]
         end.
  discriminate.
Qed.

Lemma indices_symbol (l : list ascii) (ds : list Z) :
  indices l = Ok ds -> Forall digit ds /\ map symbol ds = l.
Proof.
  revert ds. induction l as [|c l IH]; intros ds H.
  - injection H as <-. split; [constructor|reflexivity].
  - cbn [indices] in H. destruct (index c) as [d|] eqn:Ed; [|discriminate H].
    destruct (indices l) as [ds'|]; [|discriminate H].
    cbn [bind] in H. injection H as <-.
    destruct (IH ds' eq_refl) as [Hf Hm]. split.
    + constructor; [|exact Hf].
      assert (Hin : in_alphabet c = true).
      { rewrite <- (symbol_index c d Ed). apply in_alphabet_symbol. }
      destruct (in_alphabet_index c Hin) as (d' & Hd' & Hdig). congruence.
    + cbn [map]. now rewrite (symbol_index c d Ed), Hm.
Qed.

Lemma length_indices (l : list ascii) (ds : list Z) :
  indices l = Ok ds -> List.length ds = List.length l.
Proof.
  intros H. destruct (indices_symbol l ds H) as [_ <-]. now rewrite length_map.
Qed.

Lemma quintets_digit (d : Z) (l : list bool) :
  digit d -> quintets (bits 5 d ++ l) = d :: quintets l.
Proof.
  intros [H0 H1].
  assert (Hn : (Z.to_nat d < 32)%nat) by lia.
  replace d with (Z.of_nat (Z.to_nat d)) by lia.
  revert Hn. generalize (Z.to_nat d) as n. intros n Hn.
  do 32 (destruct n as [|n]; [reflexivity|]). lia.
Qed.

Lemma quintets_flat_bits (ds : list Z) :
  Forall digit ds -> quintets (flat_map (bits 5) ds) = ds.
Proof.
  induction 1 as [|d ds Hd _ IH]; [reflexivity|].
  cbn [flat_map]. now rewrite quintets_digit, IH.
Qed.

Lemma bits_octet (a b c d e f g h : bool) :
  bits 8 (Z_of_byte (byte_of_Z (value [a; b; c; d; e; f; g; h])))
  = [a; b; c; d; e; f; g; h].
Proof. destruct a, b, c, d, e, f, g, h; reflexivity. Qed.

Lemma bytes_bits_octets (n : nat) (l : list bool) :
  List.length l = (8 * n)%nat -> bytes_bits (octets l) = l.
Proof.
  revert l; induction n as [|n IH]; intros l H.
  - destruct l; [reflexivity|simpl in H; lia].
  - take_octet l H. rewrite octets_cons. unfold bytes_bits in *.
    cbn [flat_map]. rewrite bits_octet, IH; [reflexivity|]. simpl in H. lia.
Qed.

(** The decoder on the body of a 32-byte key followed by any eight
    characters of the alphabet. *)
Lemma decode_with_checksum (k : list byte) (checksum : string) :
  List.length k = 32%nat ->
  String.length checksum = 8%nat ->
  forallb in_alphabet (chars checksum) = true ->
  derive_public_key_from_address ("nano_" ++ bytes_to_nbase32 k ++ checksum)%string
  = if String.eqb checksum (bytes_to_nbase32 (rev (blake2b 5 k)))
    then Ok (upper (hexlify k)) else Raise ChecksumMismatch.
Proof.
  intros Hk Hlc Hac. rewrite <- length_chars in Hlc.
  destruct (encoded_key k Hk) as (c & body & Hbody & Hc & Hlb & Hab).
  set (B := bytes_to_nbase32 k) in *.
  assert (Hchars : chars ("nano_" ++ B ++ checksum)%string
                   = (chars "nano_" ++ (c :: body)) ++ chars checksum).
  { now rewrite !chars_app, Hbody, app_assoc. }
  assert (Hmatch : match_address ("nano_" ++ B ++ checksum)%string = true).
  { unfold match_address. rewrite Hchars.
    change (chars "nano_") with ["n"; "a"; "n"; "o"; "_"]%char.
    change (chars "nano") with ["n"; "a"; "n"; "o"]%char.
    cbn [app strip_prefix Ascii.eqb Bool.eqb andb].
    assert (Hl : List.length (body ++ chars checksum) = 59%nat)
      by (rewrite length_app, Hlb, Hlc; reflexivity).
    rewrite firstn_all2, skipn_all2 by lia.
    rewrite Hl, forallb_app, Hab, Hac.
    destruct Hc as [-> | ->]; reflexivity. }
  unfold derive_public_key_from_address. rewrite Hmatch. cbn [negb].
  rewrite Hchars.
  rewrite slice_to_neg_app, slice_from_neg_app by exact Hlc.
  rewrite slice_from_app by reflexivity.
  rewrite <- Hbody, !str_chars.
  subst B. rewrite nbase32_round_trip. cbn [bind].
  now destruct (String.eqb checksum _).
Qed.

(** The parts of a [nano_] address that the decoder accepts. *)
Lemma nano_address_parts (rest h : string) :
  derive_public_key_from_address ("nano_" ++ rest)%string = Ok h ->
  exists c part checksum d ds,
    chars rest = (c :: part) ++ checksum
    /\ (d = 0 \/ d = 1)
    /\ List.length part = 51%nat
    /\ indices (c :: part) = Ok (d :: ds)
    /\ str checksum
       = bytes_to_nbase32
           (rev (blake2b 5 (octets (skipn 4 (flat_map (bits 5) (d :: ds))))))
    /\ h = upper (hexlify (octets (skipn 4 (flat_map (bits 5) (d :: ds))))).
Proof.
  unfold derive_public_key_from_address.
  destruct (match_address _) eqn:Hm; [|discriminate]. cbn [negb].
  unfold match_address in Hm. rewrite chars_app in *.
  remember (chars rest) as r eqn:Hr. clear Hr.
  change (chars "nano_") with ["n"; "a"; "n"; "o"; "_"]%char in *.
  change (chars "nano") with ["n"; "a"; "n"; "o"]%char in Hm.
  cbn [app strip_prefix Ascii.eqb Bool.eqb] in Hm.
  destruct r as [|c rest']; [discriminate Hm|].
  apply andb_prop in Hm as [Hm Hend]. apply andb_prop in Hm as [Hm Hall].
  apply andb_prop in Hm as [Hm Hlen]. apply andb_prop in Hm as [_ Hc].
  apply Nat.leb_le in Hlen.
  assert (Hcd : index c = Some 0 \/ index c = Some 1).
  { apply orb_prop in Hc as [Hc|Hc]; apply Ascii.eqb_eq in Hc; subst c;
      [left|right]; reflexivity. }
  rewrite <- (firstn_skipn 59 rest').
  assert (Hlb : List.length (firstn 59 rest') = 59%nat)
    by (rewrite length_firstn; lia).
  set (body := firstn 59 rest') in *.
  destruct (skipn 59 rest') as [|t [|t' tail]]; [| |discriminate Hend].
  - rewrite app_nil_r.
    rewrite <- (firstn_skipn 51 body).
    assert (Hl51 : List.length (firstn 51 body) = 51%nat)
      by (rewrite length_firstn; lia).
    assert (Hl8 : List.length (skipn 51 body) = 8%nat)
      by (rewrite length_skipn; lia).
    change (["n"; "a"; "n"; "o"; "_"]%char ++ c :: firstn 51 body ++ skipn 51 body)
      with ((["n"; "a"; "n"; "o"; "_"]%char ++ c :: firstn 51 body) ++ skipn 51 body).
    rewrite slice_to_neg_app, slice_from_neg_app by exact Hl8.
    rewrite slice_from_app by reflexivity.
    unfold nbase32_to_bytes. rewrite chars_str.
    destruct (indices (c :: firstn 51 body)) as [ds0|] eqn:Ei; [|discriminate].
    cbn [bind].
    pose proof (length_indices _ _ Ei) as Hlds. cbn [List.length] in Hlds.
    rewrite Hl51 in Hlds.
    pose proof (length_flat_bits ds0) as Hbits. rewrite Hlds in Hbits.
    rewrite Hbits. change ((5 * 52) mod 8)%nat with 4%nat.
    destruct ds0 as [|d ds]; [discriminate Hlds|].
    assert (Hd : d = 0 \/ d = 1).
    { cbn [indices] in Ei. destruct (index c) as [d'|]; [|discriminate Ei].
      destruct (indices (firstn 51 body)); [|discriminate Ei].
      cbn [bind] in Ei. injection Ei as <- _.
      destruct Hcd as [H|H]; injection H as ->; [now left|now right]. }
    destruct (String.eqb_spec (str (skipn 51 body))
                (bytes_to_nbase32
                   (rev (blake2b 5 (octets (skipn 4 (flat_map (bits 5) (d :: ds)))))))) 
      as [Heq|Hne]; cbn [negb]; [|discriminate].
    intros H; injection H as <-.
    exists c, (firstn 51 body), (skipn 51 body), d, ds.
    repeat (split; [first [reflexivity | assumption]|]). reflexivity.
  - cbn [at_end] in Hend. apply Ascii.eqb_eq in Hend. subst t.
    rewrite <- (firstn_skipn 52 body).
    assert (Hl8 : List.length (skipn 52 body ++ [newline]) = 8%nat)
      by (rewrite length_app, length_skipn; simpl; lia).
    replace (["n"; "a"; "n"; "o"; "_"]%char
               ++ c :: (firstn 52 body ++ skipn 52 body) ++ [newline])
      with ((["n"; "a"; "n"; "o"; "_"]%char ++ c :: firstn 52 body)
              ++ (skipn 52 body ++ [newline]))
      by (simpl; now rewrite <- !app_assoc).
    rewrite slice_to_neg_app, slice_from_neg_app by exact Hl8.
    destruct (nbase32_to_bytes _) as [k|]; [|discriminate]. cbn [bind].
    destruct (String.eqb_spec (str (skipn 52 body ++ [newline]))
                (bytes_to_nbase32 (rev (blake2b 5 k)))) as [Heq|Hne];
      [|discriminate].
    apply (f_equal chars) in Heq. rewrite chars_str in Heq.
    pose proof (encoded_in_alphabet (rev (blake2b 5 k))) as Hin.
    rewrite <- Heq, forallb_app in Hin. apply andb_prop in Hin as [_ Hin].
    cbn [forallb] in Hin. rewrite newline_not_in_alphabet in Hin. discriminate Hin.
Qed.

End CodecFacts.

(** X4: Changing the checksum of the address of a key to any other eight
    characters of the alphabet makes the decoder raise the checksum error;
    with the right checksum the key comes back. *)
Theorem wrong_checksum_is_rejected :
  forall (k : list byte) (checksum : string),
    List.length k = 32%nat ->
    String.length checksum = 8%nat ->
    forallb nl.in_alphabet (chars checksum) = true ->
    checksum <> nl.bytes_to_nbase32 (rev (blake2b 5 k)) ->
    derive_public_key_from_address
      ("nano_" ++ nl.bytes_to_nbase32 k ++ checksum)%string
    = Raise ChecksumMismatch.
Proof.
  intros k checksum Hk Hl Ha Hne.
  rewrite (CodecFacts.decode_with_checksum k checksum Hk Hl Ha).
  apply String.eqb_neq in Hne. now rewrite Hne.
Qed.

Lemma wrong_checksum_is_rejected_witness :
  derive_public_key_from_address
    "nano_16odwi933gpzmkgdcy9tt5zef5ka3jcfubc97fwypsokg7sji4mb9n6qtbmf"
  = Raise ChecksumMismatch.
Proof.
  assert (E : "nano_16odwi933gpzmkgdcy9tt5zef5ka3jcfubc97fwypsokg7sji4mb9n6qtbmf"
              = ("nano_" ++ nl.bytes_to_nbase32 (bytes_of_hex example_key)
                   ++ "9n6qtbmf")%string) by (vm_compute; reflexivity).
  rewrite E.
  apply (wrong_checksum_is_rejected (bytes_of_hex example_key) "9n6qtbmf").
  - vm_compute. reflexivity.
  - reflexivity.
  - reflexivity.
  - vm_compute. discriminate.
Defined.

(** X5: Every [nano_] address that the decoder accepts is the one the encoder
    makes for the key returned: decoding then encoding gives the address
    back, and the key has 64 hex digits. *)
Theorem accepted_address_is_canonical :
  forall rest h : string,
    derive_public_key_from_address ("nano_" ++ rest)%string = Ok h ->
    derive_address_from_public_key h = Ok ("nano_" ++ rest)%string
    /\ String.length h = 64%nat.
Proof.
  intros rest h H.
  destruct (DecoderFacts.decoded_nano_key rest h H) as (k & Hk & Hh).
  destruct (CodecFacts.nano_address_parts rest h H)
    as (c & part & checksum & d & ds & Hchars & Hd & Hlp & Hi & Hcs & Hh').
  split; [|now rewrite Hh, length_upper, length_hexlify, Hk].
  set (data := flat_map (nl.bits 5) (d :: ds)) in *.
  set (pk := nl.octets (skipn 4 data)) in *.
  assert (Hldata : List.length data = 260%nat).
  { subst data. rewrite DecoderFacts.length_flat_bits.
    rewrite (CodecFacts.length_indices _ _ Hi). simpl. now rewrite Hlp. }
  assert (Hbits : nl.bytes_bits pk = skipn 4 data).
  { apply (CodecFacts.bytes_bits_octets 32). rewrite length_skipn, Hldata.
    reflexivity. }
  assert (Hpad : repeat false 4 ++ skipn 4 data = data).
  { subst data. cbn [flat_map]. destruct Hd as [-> | ->]; reflexivity. }
  assert (Henc : nl.bytes_to_nbase32 pk = str (c :: part)).
  { unfold nl.bytes_to_nbase32. rewrite Hbits, length_skipn, Hldata.
    change ((5 - (260 - 4) mod 5) mod 5)%nat with 4%nat. rewrite Hpad.
    subst data.
    destruct (CodecFacts.indices_symbol _ _ Hi) as [Hdig Hsym].
    now rewrite CodecFacts.quintets_flat_bits, Hsym. }
  unfold derive_address_from_public_key.
  rewrite Hh', unhexlify_upper_hexlify. cbn [bind].
  unfold CHECKSUM_DIGEST_SIZE_BYTES. rewrite Henc, <- Hcs.
  rewrite <- CodecFacts.str_app, <- Hchars, str_chars. reflexivity.
Qed.

Lemma accepted_address_is_canonical_witness :
  derive_address_from_public_key example_key = Ok example_address.
Proof.
  apply (accepted_address_is_canonical
           "16odwi933gpzmkgdcy9tt5zef5ka3jcfubc97fwypsokg7sji4mb9n6qtbme"
           example_key).
  vm_compute. reflexivity.
Defined.

(** Fifty-one characters of the alphabet decode to thirty-one bytes. *)
Lemma decode_short_part (part : list ascii) :
  List.length part = 51%nat -> forallb nl.in_alphabet part = true ->
  exists k, nl.nbase32_to_bytes (str part) = Ok k /\ List.length k = 31%nat.
Proof.
  intros Hlen Hin. unfold nl.nbase32_to_bytes. rewrite chars_str.
  destruct (DecoderFacts.indices_in_alphabet part Hin) as (ds & -> & Hds).
  cbn [bind]. eexists. split; [reflexivity|].
  pose proof (DecoderFacts.length_flat_bits ds) as Hbits.
  rewrite Hds, Hlen in Hbits.
  rewrite Hbits. change ((5 * 51) mod 8)%nat with 7%nat.
  apply NBase32Facts.length_octets. rewrite length_skipn, Hbits. reflexivity.
Qed.

(** X6: An address with the [xrb_] prefix passes the format check, but five
    characters are cut off its front as for [nano_]: the decoder never
    returns a 32-byte key for it.  It raises, or, when the checksum happens
    to be that of the last 31 bytes, returns those 31 bytes. *)
Theorem xrb_address_yields_no_32_byte_key :
  forall rest h : string,
    derive_public_key_from_address ("xrb_" ++ rest)%string = Ok h ->
    exists k, List.length k = 31%nat /\ h = upper (hexlify k)
              /\ String.length h = 62%nat.
Proof.
  intros rest h.
  assert (Hgoal : derive_public_key_from_address ("xrb_" ++ rest)%string = Ok h ->
                  exists k, List.length k = 31%nat /\ h = upper (hexlify k)).
  { unfold derive_public_key_from_address.
    destruct (match_address _) eqn:Hm; [|discriminate]. cbn [negb].
    unfold match_address in Hm. rewrite chars_app in *.
    remember (chars rest) as r eqn:Hr. clear Hr.
    change (chars "xrb_") with ["x"; "r"; "b"; "_"]%char in *.
    change (chars "nano") with ["n"; "a"; "n"; "o"]%char in Hm.
    change (chars "xrb") with ["x"; "r"; "b"]%char in Hm.
    cbn [app strip_prefix Ascii.eqb Bool.eqb] in Hm.
    destruct r as [|c rest']; [discriminate Hm|].
    apply andb_prop in Hm as [Hm Hend]. apply andb_prop in Hm as [Hm Hall].
    apply andb_prop in Hm as [Hm Hlen]. apply andb_prop in Hm as [_ Hc].
    apply Nat.leb_le in Hlen.
    rewrite <- (firstn_skipn 59 rest').
    assert (Hlb : List.length (firstn 59 rest') = 59%nat)
      by (rewrite length_firstn; lia).
    set (body := firstn 59 rest') in *.
    destruct (skipn 59 rest') as [|t [|t' tail]]; [| |discriminate Hend].
    - rewrite app_nil_r. rewrite <- (firstn_skipn 51 body).
      assert (Hl51 : List.length (firstn 51 body) = 51%nat)
        by (rewrite length_firstn; lia).
      assert (Hl8 : List.length (skipn 51 body) = 8%nat)
        by (rewrite length_skipn; lia).
      change (["x"; "r"; "b"; "_"]%char ++ c :: firstn 51 body ++ skipn 51 body)
        with ((["x"; "r"; "b"; "_"; c]%char ++ firstn 51 body) ++ skipn 51 body).
      rewrite slice_to_neg_app, slice_from_neg_app by exact Hl8.
      rewrite slice_from_app by reflexivity.
      destruct (decode_short_part (firstn 51 body)) as (k & -> & Hk);
        [exact Hl51 | now apply DecoderFacts.forallb_firstn |].
      cbn [bind]. destruct (negb _); [discriminate|].
      intros H; injection H as <-. now exists k.
    - cbn [at_end] in Hend. apply Ascii.eqb_eq in Hend. subst t.
      rewrite <- (firstn_skipn 52 body).
      assert (Hl8 : List.length (skipn 52 body ++ [newline]) = 8%nat)
        by (rewrite length_app, length_skipn; simpl; lia).
      replace (["x"; "r"; "b"; "_"]%char
                 ++ c :: (firstn 52 body ++ skipn 52 body) ++ [newline])
        with ((["x"; "r"; "b"; "_"; c]%char ++ firstn 52 body)
                ++ (skipn 52 body ++ [newline]))
        by (simpl; now rewrite <- !app_assoc).
      rewrite slice_to_neg_app, slice_from_neg_app by exact Hl8.
      destruct (nl.nbase32_to_bytes _) as [k|]; [|discriminate]. cbn [bind].
      destruct (String.eqb_spec (str (skipn 52 body ++ [newline]))
                  (nl.bytes_to_nbase32 (rev (blake2b 5 k)))) as [Heq|Hne];
        [|discriminate].
      apply (f_equal chars) in Heq. rewrite chars_str in Heq.
      pose proof (AddressFacts.encoded_in_alphabet (rev (blake2b 5 k))) as Hin.
      rewrite <- Heq, forallb_app in Hin. apply andb_prop in Hin as [_ Hin].
      cbn [forallb] in Hin.
      rewrite DecoderFacts.newline_not_in_alphabet in Hin. discriminate Hin. }
  intros H. destruct (Hgoal H) as (k & Hk & ->).
  exists k. split; [exact Hk|]. split; [reflexivity|].
  now rewrite length_upper, length_hexlify, Hk.
Qed.

Lemma xrb_address_yields_no_32_byte_key_witness :
  derive_public_key_from_address
    "xrb_31131a3ia3a81w61k4id3i8iw5ri46b3871o4rdji8at5eg3t9izyura5ybe"
  = Ok "0102030405060708090A0B0C0D0E0F101112131415161718191A1B1C1D1E1F".
Proof.
  assert (H : derive_public_key_from_address
                ("xrb_" ++ "31131a3ia3a81w61k4id3i8iw5ri46b3871o4rdji8at5eg3t9izyura5ybe")
              = Ok "0102030405060708090A0B0C0D0E0F101112131415161718191A1B1C1D1E1F")
    by (vm_compute; reflexivity).
  destruct (xrb_address_yields_no_32_byte_key _ _ H) as (k & _ & _ & _).
  exact H.
Defined.

(** ** Block hashing: failures and what the hash depends on *)

(** The fields behind a successful serialisation. *)
Lemma block_bytes_fields (blk : Block) (bs : list byte) :
  block_bytes blk = Ok bs ->
  exists ak pb rk n lh lb,
    derive_public_key_from_address (account blk) = Ok (upper (hexlify ak))
    /\ derive_public_key_from_address (representative blk) = Ok (upper (hexlify rk))
    /\ unhexlify (previous blk) = Ok pb
    /\ int_of_str (balance blk) = Ok n
    /\ 0 <= n < 2 ^ 128
    /\ process_link_data blk = Ok lh
    /\ unhexlify lh = Ok lb
    /\ bs = STATE_BLOCK_HEADER_BYTES ++ ak ++ pb ++ rk ++ be_bytes 16 n ++ lb.
Proof.
  intros H. unfold block_bytes in H.
  destruct (derive_public_key_from_address (account blk)) as [ah|] eqn:Ea;
    [|discriminate H].
  destruct (derive_public_key_from_address (representative blk)) as [rh|] eqn:Er;
    [|discriminate H].
  cbn [bind] in H.
  destruct (DecoderFacts.decoded_hex _ _ Ea) as [ak ->].
  destruct (DecoderFacts.decoded_hex _ _ Er) as [rk ->].
  rewrite (unhexlify_upper_hexlify ak) in H. cbn [bind] in H.
  destruct (unhexlify (previous blk)) as [pb|] eqn:Ep; [|discriminate H].
  cbn [bind] in H.
  rewrite (unhexlify_upper_hexlify rk) in H. cbn [bind] in H.
  destruct (int_of_str (balance blk)) as [n|] eqn:En; [|discriminate H].
  cbn [bind] in H.
  destruct (to_bytes n BALANCE_SIZE_BYTES) as [bb|] eqn:Eb; [|discriminate H].
  cbn [bind] in H.
  destruct (process_link_data blk) as [lh|] eqn:El; [|discriminate H].
  cbn [bind] in H.
  destruct (unhexlify lh) as [lb|] eqn:Elb; [|discriminate H].
  cbn [bind] in H. injection H as <-.
  apply to_bytes_ok in Eb as [-> Hn].
  exists ak, pb, rk, n, lh, lb.
  do 4 (split; [reflexivity|]). split; [exact Hn|].
  split; [reflexivity|]. split; [exact Elb|reflexivity].
Qed.

Lemma int_of_str_error (s : string) (e : exn) :
  int_of_str s = Raise e -> e = ValueError.
Proof.
  unfold int_of_str. destruct (match rev _ with [] => _ | _ => _ end).
  - discriminate.
  - intros H. now injection H.
Qed.

(** X9: A balance that is not a number makes [create_block_hash] raise
    ValueError, and one that is negative or needs more than 16 bytes makes
    it raise OverflowError; both happen before the link is looked at. *)
Theorem bad_balance_is_refused :
  forall blk : Block,
    is_ok (derive_public_key_from_address (account blk)) = true ->
    is_ok (derive_public_key_from_address (representative blk)) = true ->
    is_ok (unhexlify (previous blk)) = true ->
    (forall e, int_of_str (balance blk) = Raise e ->
       create_block_hash blk = Raise ValueError)
    /\ (forall n, int_of_str (balance blk) = Ok n -> n < 0 \/ 2 ^ 128 <= n ->
          create_block_hash blk = Raise OverflowError).
Proof.
  intros blk Ha Hr Hp. unfold create_block_hash, block_bytes.
  destruct (derive_public_key_from_address (account blk)) as [ah|] eqn:Ea;
    [|discriminate Ha].
  destruct (derive_public_key_from_address (representative blk)) as [rh|] eqn:Er;
    [|discriminate Hr].
  destruct (DecoderFacts.decoded_hex _ _ Ea) as [ak ->].
  destruct (DecoderFacts.decoded_hex _ _ Er) as [rk ->].
  destruct (unhexlify (previous blk)) as [pb|]; [|discriminate Hp].
  cbn [bind]. rewrite !unhexlify_upper_hexlify. cbn [bind]. split.
  - intros e He. rewrite He. cbn [bind]. f_equal.
    now apply (int_of_str_error (balance blk)).
  - intros n Hn Hrange. rewrite Hn. cbn [bind]. unfold to_bytes.
    change (256 ^ Z.of_nat BALANCE_SIZE_BYTES) with (2 ^ 128).
    destruct (n <? 0) eqn:E1; [reflexivity|].
    destruct (2 ^ 128 <=? n) eqn:E2; [reflexivity|lia].
Qed.

Definition with_balance (blk : Block) (b : string) : Block :=
  mkBlock (type blk) (account blk) (previous blk) (representative blk)
          b (link blk) (signature blk) (work blk).

Lemma bad_balance_is_refused_witness :
  create_block_hash
    (with_balance example_block "340282366920938463463374607431768211456")
  = Raise OverflowError
  /\ create_block_hash (with_balance example_block "-1") = Raise OverflowError
  /\ create_block_hash (with_balance example_block "1.5") = Raise ValueError.
Proof.
  split; [|split].
  - refine (proj2 (bad_balance_is_refused
                     (with_balance example_block
                        "340282366920938463463374607431768211456") _ _ _)
                  (2 ^ 128) _ _);
      first [lia | vm_compute; reflexivity].
  - refine (proj2 (bad_balance_is_refused
                     (with_balance example_block "-1") _ _ _) (-1) _ _);
      first [lia | vm_compute; reflexivity].
  - refine (proj1 (bad_balance_is_refused
                     (with_balance example_block "1.5") _ _ _) ValueError _);
      vm_compute; reflexivity.
Defined.


Lemma app_same_length {A : Type} (a a' b b' : list A) :
  List.length a = List.length a' -> a ++ b = a' ++ b' -> a = a' /\ b = b'.
Proof.
  revert a'. induction a as [|x a IH]; intros [|x' a'] Hl H;
    try discriminate Hl.
  - now split.
  - injection H as -> H. injection Hl as Hl.
    destruct (IH a' Hl H) as [-> ->]. now split.
Qed.

Lemma nano_key_length (rest : string) (k : list byte) :
  derive_public_key_from_address ("nano_" ++ rest)%string = Ok (upper (hexlify k)) ->
  List.length k = 32%nat.
Proof.
  intros H. destruct (DecoderFacts.decoded_nano_key _ _ H) as (k' & Hk & Hh).
  apply upper_hexlify_inj in Hh. now subst k'.
Qed.

(** X11: The hashed bytes determine the block: two blocks with [nano_] account
    and representative and with [previous] of one length (64 characters,
    say) that are serialised to the same bytes have the same account key,
    the same representative key, the same [previous] bytes, the same
    balance and the same link payload. *)
Theorem block_bytes_determine_fields :
  forall (b1 b2 : Block) (bs : list byte) (a1 a2 r1 r2 : string),
    block_bytes b1 = Ok bs -> block_bytes b2 = Ok bs ->
    account b1 = ("nano_" ++ a1)%string -> account b2 = ("nano_" ++ a2)%string ->
    representative b1 = ("nano_" ++ r1)%string ->
    representative b2 = ("nano_" ++ r2)%string ->
    String.length (previous b1) = String.length (previous b2) ->
    derive_public_key_from_address (account b1)
    = derive_public_key_from_address (account b2)
    /\ derive_public_key_from_address (representative b1)
       = derive_public_key_from_address (representative b2)
    /\ unhexlify (previous b1) = unhexlify (previous b2)
    /\ int_of_str (balance b1) = int_of_str (balance b2)
    /\ (h <- process_link_data b1 ;; unhexlify h)
       = (h <- process_link_data b2 ;; unhexlify h).
Proof.
  intros b1 b2 bs a1 a2 r1 r2 H1 H2 Ha1 Ha2 Hr1 Hr2 Hp.
  destruct (block_bytes_fields b1 bs H1)
    as (ak1 & pb1 & rk1 & n1 & lh1 & lb1 & Ea1 & Er1 & Ep1 & En1 & Hn1 & El1 & Eb1 & Hbs1).
  destruct (block_bytes_fields b2 bs H2)
    as (ak2 & pb2 & rk2 & n2 & lh2 & lb2 & Ea2 & Er2 & Ep2 & En2 & Hn2 & El2 & Eb2 & Hbs2).
  rewrite Hbs1 in Hbs2. apply app_inv_head in Hbs2.
  assert (Lak1 : List.length ak1 = 32%nat)
    by (apply (nano_key_length a1); now rewrite <- Ha1).
  assert (Lak2 : List.length ak2 = 32%nat)
    by (apply (nano_key_length a2); now rewrite <- Ha2).
  assert (Lrk1 : List.length rk1 = 32%nat)
    by (apply (nano_key_length r1); now rewrite <- Hr1).
  assert (Lrk2 : List.length rk2 = 32%nat)
    by (apply (nano_key_length r2); now rewrite <- Hr2).
  apply app_same_length in Hbs2 as [-> Hbs2]; [|congruence].
  assert (Lpb : List.length pb1 = List.length pb2).
  { apply length_unhexlify in Ep1, Ep2. lia. }
  apply app_same_length in Hbs2 as [-> Hbs2]; [|exact Lpb].
  apply app_same_length in Hbs2 as [-> Hbs2]; [|congruence].
  apply app_same_length in Hbs2 as [Hbal ->];
    [|now rewrite !length_be_bytes].
  assert (Hn : n1 = n2).
  { apply (f_equal from_bytes) in Hbal. rewrite !from_bytes_be_bytes in Hbal.
    change (256 ^ Z.of_nat 16) with (2 ^ 128) in Hbal.
    now rewrite !Z.mod_small in Hbal by assumption. }
  subst n2.
  rewrite Ea1, Ea2, Er1, Er2, Ep1, Ep2, En1, En2, El1, El2. cbn [bind].
  rewrite Eb1, Eb2. repeat split; reflexivity.
Qed.

Lemma block_bytes_determine_fields_witness :
  int_of_str (balance example_block)
  = int_of_str (balance (with_balance example_block " +123_000_000000000000000000000")).
Proof.
  assert (H : exists bs, block_bytes example_block = Ok bs
              /\ block_bytes (with_balance example_block
                                " +123_000_000000000000000000000") = Ok bs).
  { eexists. split; vm_compute; reflexivity. }
  destruct H as (bs & H1 & H2).
  apply (block_bytes_determine_fields example_block
           (with_balance example_block " +123_000_000000000000000000000") bs
           "16odwi933gpzmkgdcy9tt5zef5ka3jcfubc97fwypsokg7sji4mb9n6qtbme"
           "16odwi933gpzmkgdcy9tt5zef5ka3jcfubc97fwypsokg7sji4mb9n6qtbme"
           "1wenanoqm7xbypou7x3nue1isaeddamjdnc3z99tekjbfezdbq8fmb659o7t"
           "1wenanoqm7xbypou7x3nue1isaeddamjdnc3z99tekjbfezdbq8fmb659o7t"
           H1 H2); reflexivity.
Defined.

(** ** Proof of work: search and validation *)

(** What [validate_work] computes for a nonce that is not empty. *)
Lemma validate_work_value (blk : Block) (nonce difficulty : string)
      (nonce_bytes base : list byte) :
  nonce <> "" -> unhexlify nonce = Ok nonce_bytes -> work_base blk = Ok base ->
  validate_work blk (Some nonce) difficulty
  = Ok (str_ge (hexlify (rev (blake2b 8 (rev nonce_bytes ++ base)))) difficulty).
Proof.
  intros Hne Hn Hb. unfold validate_work.
  apply String.eqb_neq in Hne. rewrite Hne, Hb. cbn [bind]. rewrite Hn.
  cbn [bind]. cbv zeta. unfold WORK_SIZE_BYTES. now destruct (str_ge _ difficulty).
Qed.

Lemma validate_work_draw (blk : Block) (difficulty : string) (base : list byte)
      (r : Z) :
  work_base blk = Ok base ->
  validate_work blk (Some (hexlify (be_bytes 8 r))) difficulty
  = Ok (str_ge (hexlify (rev (blake2b 8 (rev (be_bytes 8 r) ++ base)))) difficulty).
Proof.
  intros Hb. apply validate_work_value; [|apply unhexlify_hexlify|exact Hb].
  intros E. apply (f_equal String.length) in E.
  rewrite length_hexlify, length_be_bytes in E. discriminate E.
Qed.

(** The draws that the loop of [compute_work] goes through. *)
Lemma search_nonce_trace (base : list byte) (difficulty : string) (draws : list Z) :
  let fails r :=
    0 <= r <= MAX_NONCE_SIZE
    /\ str_ge (hexlify (rev (blake2b 8 (rev (be_bytes 8 r) ++ base)))) difficulty
       = false in
  match search_nonce base difficulty draws with
  | Ok None => Forall fails draws
  | Ok (Some nonce) =>
      exists pre r post,
        draws = pre ++ r :: post /\ Forall fails pre
        /\ nonce = hexlify (be_bytes 8 r)
        /\ str_ge (hexlify (rev (blake2b 8 (rev (be_bytes 8 r) ++ base)))) difficulty
           = true
  | Raise e =>
      e = OverflowError /\ exists r, In r draws /\ (r < 0 \/ MAX_NONCE_SIZE < r)
  end.
Proof.
  intros fails. induction draws as [|r draws IH]; [constructor|].
  cbn [search_nonce]. unfold to_bytes.
  change (256 ^ Z.of_nat 8) with (MAX_NONCE_SIZE + 1).
  destruct (r <? 0) eqn:E1; cbn [orb bind].
  { split; [reflexivity|]. exists r. split; [now left|lia]. }
  destruct (MAX_NONCE_SIZE + 1 <=? r) eqn:E2; cbn [bind].
  { split; [reflexivity|]. exists r. split; [now left|lia]. }
  cbv zeta. rewrite rev_involutive. unfold WORK_SIZE_BYTES.
  destruct (str_ge _ difficulty) eqn:Ege.
  - exists [], r, draws. split; [reflexivity|]. split; [constructor|].
    split; [reflexivity|exact Ege].
  - assert (Hr : fails r) by (split; [lia|exact Ege]).
    destruct (search_nonce base difficulty draws) as [[nonce|]|e].
    + destruct IH as (pre & r' & post & -> & Hpre & Hn & Hge).
      exists (r :: pre), r', post. split; [reflexivity|].
      split; [now constructor|]. split; assumption.
    + now constructor.
    + destruct IH as (-> & r' & Hin & Hr'). split; [reflexivity|].
      exists r'. split; [now right|exact Hr'].
Qed.

(** X14: The nonce that [compute_work] returns is the first draw that
    [validate_work] accepts: sixteen hex digits, after draws that
    [validate_work] all rejects. *)
Theorem search_returns_first_valid_draw :
  forall (blk : Block) (difficulty : string) (draws : list Z) (nonce : string),
    compute_work blk difficulty draws = Ok (Some nonce) ->
    exists pre r post,
      draws = pre ++ r :: post
      /\ nonce = hexlify (be_bytes 8 r)
      /\ String.length nonce = 16%nat
      /\ forall r', In r' pre ->
           validate_work blk (Some (hexlify (be_bytes 8 r'))) difficulty = Ok false.
Proof.
  intros blk difficulty draws nonce H. unfold compute_work in H.
  destruct (work_base blk) as [base|] eqn:Eb; [|discriminate H].
  cbn [bind] in H.
  pose proof (search_nonce_trace base difficulty draws) as T. cbv zeta in T.
  destruct (search_nonce base difficulty draws) as [[n|]|]; try discriminate H.
  cbn [bind] in H. destruct (String.eqb n ""); [discriminate H|].
  injection H as ->.
  destruct T as (pre & r & post & Hd & Hpre & Hn & _).
  exists pre, r, post. split; [exact Hd|]. split; [exact Hn|]. split.
  - now rewrite Hn, length_hexlify, length_be_bytes.
  - intros r' Hin. rewrite (validate_work_draw blk difficulty base r' Eb).
    rewrite Forall_forall in Hpre. now destruct (Hpre r' Hin) as [_ ->].
Qed.

Lemma search_returns_first_valid_draw_witness :
  compute_work example_block "f000000000000000" [1; 2; 3; 0]
  = Ok (Some "0000000000000003")
  /\ validate_work example_block (Some "0000000000000001") "f000000000000000"
     = Ok false.
Proof.
  assert (H : compute_work example_block "f000000000000000" [1; 2; 3; 0]
              = Ok (Some "0000000000000003")) by (vm_compute; reflexivity).
  split; [exact H|].
  destruct (search_returns_first_valid_draw _ _ _ _ H)
    as (pre & r & post & Hd & Hn & _ & Hpre).
  destruct pre as [|p pre]; [|destruct pre as [|q pre]].
  - injection Hd as <- _. vm_compute in Hn. discriminate Hn.
  - injection Hd as <- <- _. vm_compute in Hn. discriminate Hn.
  - injection Hd as <- _. apply (Hpre 1). now left.
Defined.

(** X15: A search that times out ([None]) has tried only draws that
    [validate_work] rejects; and the one way the search itself can raise is
    a draw outside [0, MAX_NONCE_SIZE]. *)
Theorem timeout_means_no_valid_draw :
  forall (blk : Block) (difficulty : string) (draws : list Z),
    compute_work blk difficulty draws = Ok None ->
    forall r, In r draws ->
      0 <= r <= MAX_NONCE_SIZE
      /\ validate_work blk (Some (hexlify (be_bytes 8 r))) difficulty = Ok false.
Proof.
  intros blk difficulty draws H r Hin. unfold compute_work in H.
  destruct (work_base blk) as [base|] eqn:Eb; [|discriminate H].
  cbn [bind] in H.
  pose proof (search_nonce_trace base difficulty draws) as T. cbv zeta in T.
  destruct (search_nonce base difficulty draws) as [[n|]|]; try discriminate H.
  - cbn [bind] in H. destruct T as (pre & r0 & post & _ & _ & Hn & _).
    destruct (String.eqb_spec n ""); [|discriminate H].
    subst n. apply (f_equal String.length) in e.
    rewrite length_hexlify, length_be_bytes in e. discriminate e.
  - rewrite Forall_forall in T. destruct (T r Hin) as [Hr Hge].
    split; [exact Hr|].
    now rewrite (validate_work_draw blk difficulty base r Eb), Hge.
Qed.

Lemma timeout_means_no_valid_draw_witness :
  validate_work example_block (Some "0000000000000002") MINIMUM_NETWORK_DIFFICULTY
  = Ok false.
Proof.
  apply (timeout_means_no_valid_draw example_block MINIMUM_NETWORK_DIFFICULTY
           [1; 2; 3] ltac:(vm_compute; reflexivity) 2).
  right. left. reflexivity.
Defined.



(** ** Signing, verifying and submitting *)

(** A stand-in for the signature primitive, used in the examples only: the
    public key is the private key, and a signature is the key followed by
    the message. *)
Module ToySignature.

Definition public_key (k : list byte) : list byte := k.

Definition signing_key (k : list byte) : result (list byte) := Ok k.

Definition sign (k m : list byte) : result (list byte) := Ok (k ++ m).

Definition verifying_key_of_hex (h : string) : result (list byte) := unhexlify h.

Definition verify (k sig m : list byte) : result bool :=
  Ok (String.eqb (hexlify sig) (hexlify (k ++ m))).

Definition post (url subtype : string) (blk : Block) : string :=
  (url ++ "#" ++ subtype)%string.

End ToySignature.

Definition with_signature_and_work (blk : Block) (s w : string) : Block :=
  mkBlock (type blk) (account blk) (previous blk) (representative blk)
          (balance blk) (link blk) s w.

Lemma generated_index_range (vk : list byte -> list byte) (seed : string)
      (index : Z) (keys : string * string) :
  generate_public_private_key_pairs vk seed index = Ok keys ->
  0 <= index <= 2 ^ 32 - 1.
Proof.
  unfold generate_public_private_key_pairs, to_bytes.
  destruct (index >? 2 ^ 32 - 1) eqn:E1; [discriminate|].
  destruct (index <? 0) eqn:E2; [discriminate|]. lia.
Qed.

(** X17: Signing and verifying compose: when the signature primitive verifies
    what it signs, a block signed with a derived private key verifies against
    the address of the derived public key. *)
Theorem signature_round_trip :
  forall (SK VK : Type)
         (signing_key : list byte -> result SK)
         (sign : SK -> list byte -> result (list byte))
         (verifying_key_of_hex : string -> result VK)
         (verify : VK -> list byte -> list byte -> result bool)
         (vk : list byte -> list byte),
    (forall k, List.length k = 32%nat -> List.length (vk k) = 32%nat) ->
    (forall k m, List.length k = 32%nat ->
       exists s v sg,
         signing_key k = Ok s /\ sign s m = Ok sg
         /\ verifying_key_of_hex (upper (hexlify (vk k))) = Ok v
         /\ verify v sg m = Ok true) ->
    forall (seed : string) (index : Z) (blk : Block)
           (private_key public_key address signature : string),
      generate_public_private_key_pairs vk seed index
      = Ok (private_key, public_key) ->
      derive_address_from_public_key public_key = Ok address ->
      create_block_signature SK signing_key sign blk private_key = Ok signature ->
      validate_block_signature VK verifying_key_of_hex verify blk signature address
      = Ok true.
Proof.
  intros SK VK signing_key sign vkoh verify vk Hlen Hprim
         seed index blk private_key public_key address signature Hg Ha Hs.
  pose proof (generated_index_range _ _ _ _ Hg) as Hi.
  rewrite (generated_from_zero_index vk seed index Hi) in Hg.
  destruct (unhexlify seed) as [sb|]; [|discriminate Hg].
  cbn [bind] in Hg. cbv zeta in Hg.
  set (k := blake2b 32 (sb ++ [x00; x00; x00; x00])) in *.
  assert (Hk : List.length k = 32%nat) by (apply length_blake2b; lia).
  injection Hg as <- <-.
  unfold derive_address_from_public_key in Ha.
  rewrite unhexlify_upper_hexlify in Ha. cbn [bind] in Ha. injection Ha as <-.
  destruct (AddressFacts.decode_encoded (vk k) (Hlen k Hk)) as [_ Hdec].
  cbv zeta in Hdec. cbn [String.append] in Hdec.
  unfold create_block_signature in Hs.
  destruct (create_block_hash blk) as [hh|] eqn:Eh; [|discriminate Hs].
  cbn [bind] in Hs. rewrite unhexlify_upper_hexlify in Hs. cbn [bind] in Hs.
  destruct (Hprim k hh Hk) as (s & v & sg & Hsk & Hsg & Hv & Hver).
  rewrite Hsk in Hs. cbn [bind] in Hs. rewrite Hsg in Hs. cbn [bind] in Hs.
  injection Hs as <-.
  unfold validate_block_signature, CHECKSUM_DIGEST_SIZE_BYTES.
  rewrite Hdec. cbn [bind]. rewrite Hv. cbn [bind]. rewrite Eh. cbn [bind].
  rewrite unhexlify_upper_hexlify. cbn [bind]. exact Hver.
Qed.

Lemma signature_round_trip_witness :
  exists private_key public_key address signature,
    generate_public_private_key_pairs ToySignature.public_key zero_seed 0
    = Ok (private_key, public_key)
    /\ derive_address_from_public_key public_key = Ok address
    /\ create_block_signature _ ToySignature.signing_key ToySignature.sign
         example_block private_key = Ok signature
    /\ validate_block_signature _ ToySignature.verifying_key_of_hex
         ToySignature.verify example_block signature address = Ok true.
Proof.
  do 4 eexists.
  assert (Hg : generate_public_private_key_pairs ToySignature.public_key zero_seed 0
               = Ok ("9F0E444C69F77A49BD0BE89DB92C38FE713E0963165CCA12FAF5712D7657120F",
                     "9F0E444C69F77A49BD0BE89DB92C38FE713E0963165CCA12FAF5712D7657120F"))
    by (vm_compute; reflexivity).
  assert (Ha : derive_address_from_public_key
                 "9F0E444C69F77A49BD0BE89DB92C38FE713E0963165CCA12FAF5712D7657120F"
               = Ok "nano_39rgaj88mxutb8yiqt6xq6p5jzmj9r6p87kwsabhoxdj7ou7g6ih78mizh8w")
    by (vm_compute; reflexivity).
  split; [exact Hg|]. split; [exact Ha|].
  assert (Hs : create_block_signature _ ToySignature.signing_key ToySignature.sign
                 example_block
                 "9F0E444C69F77A49BD0BE89DB92C38FE713E0963165CCA12FAF5712D7657120F"
               = Ok "9F0E444C69F77A49BD0BE89DB92C38FE713E0963165CCA12FAF5712D7657120FC82F985E8D34DC2C05E477F5456D33C49EF065EFDBEDDA86BA04718A1EBFEF70")
    by (vm_compute; reflexivity).
  split; [exact Hs|].
  refine (signature_round_trip _ _ ToySignature.signing_key ToySignature.sign
            ToySignature.verifying_key_of_hex ToySignature.verify
            ToySignature.public_key (fun k H => H) _
            zero_seed 0 example_block _ _ _ _ Hg Ha Hs).
  intros k m Hk. exists k, k, (k ++ m).
  split; [reflexivity|]. split; [reflexivity|].
  split; [apply unhexlify_upper_hexlify|].
  unfold ToySignature.verify. now rewrite String.eqb_refl.
Defined.


(** The example block, signed with the stand-in primitive and carrying a
    nonce that meets the default difficulty. *)
Definition worked_example_block : Block :=
  with_signature_and_work example_block
    "12ABE40E10BADF9C9CB578FAD0FEC68E480C54DDA5472B79EB66B27173180A69C82F985E8D34DC2C05E477F5456D33C49EF065EFDBEDDA86BA04718A1EBFEF70"
    "0000000004cbb49a".




(** ** Addresses: length and trailing newline *)

Lemma strip_prefix_app (p l r : list ascii) :
  strip_prefix p l = Some r -> l = p ++ r.
Proof.
  revert l. induction p as [|a p IH]; intros l H.
  - now injection H as ->.
  - destruct l as [|b l]; [discriminate H|]. cbn [strip_prefix] in H.
    destruct (Ascii.eqb_spec a b) as [->|]; [|discriminate H].
    cbn [app]. now rewrite (IH l H).
Qed.

(** The shape of a string that the address pattern matches. *)
Lemma match_address_shape (s : string) :
  match_address s = true ->
  exists prefix c body tail,
    chars s = prefix ++ "_"%char :: c :: body ++ tail
    /\ (prefix = chars "nano" \/ prefix = chars "xrb")
    /\ List.length body = 59%nat
    /\ forallb nl.in_alphabet (c :: body) = true
    /\ (tail = [] \/ tail = [newline]).
Proof.
  unfold match_address.
  destruct (strip_prefix (chars "nano") (chars s)) as [r|] eqn:E1.
  - apply strip_prefix_app in E1.
    destruct r as [|u [|c rest]]; try discriminate.
    intros H. apply andb_prop in H as [H Hend]. apply andb_prop in H as [H Hall].
    apply andb_prop in H as [H Hlen]. apply andb_prop in H as [Hu Hc].
    apply Ascii.eqb_eq in Hu. subst u. apply Nat.leb_le in Hlen.
    exists (chars "nano"), c, (firstn 59 rest), (skipn 59 rest).
    rewrite firstn_skipn. split; [exact E1|]. split; [now left|].
    split; [rewrite length_firstn; lia|]. split.
    + cbn [forallb]. rewrite Hall, andb_true_r.
      apply orb_prop in Hc as [Hc|Hc]; apply Ascii.eqb_eq in Hc; now subst c.
    + destruct (skipn 59 rest) as [|t [|? ?]]; [now left| |discriminate Hend].
      cbn [at_end] in Hend. apply Ascii.eqb_eq in Hend. subst t. now right.
  - destruct (strip_prefix (chars "xrb") (chars s)) as [r|] eqn:E2;
      [|discriminate].
    apply strip_prefix_app in E2.
    destruct r as [|u [|c rest]]; try discriminate.
    intros H. apply andb_prop in H as [H Hend]. apply andb_prop in H as [H Hall].
    apply andb_prop in H as [H Hlen]. apply andb_prop in H as [Hu Hc].
    apply Ascii.eqb_eq in Hu. subst u. apply Nat.leb_le in Hlen.
    exists (chars "xrb"), c, (firstn 59 rest), (skipn 59 rest).
    rewrite firstn_skipn. split; [exact E2|]. split; [now right|].
    split; [rewrite length_firstn; lia|]. split.
    + cbn [forallb]. rewrite Hall, andb_true_r.
      apply orb_prop in Hc as [Hc|Hc]; apply Ascii.eqb_eq in Hc; now subst c.
    + destruct (skipn 59 rest) as [|t [|? ?]]; [now left| |discriminate Hend].
      cbn [at_end] in Hend. apply Ascii.eqb_eq in Hend. subst t. now right.
Qed.

(** X7: Only strings of 64 to 66 characters can be addresses: every other
    length is refused by the format check, before anything is decoded. *)
Theorem address_length_is_checked :
  forall address : string,
    (String.length address < 64)%nat \/ (66 < String.length address)%nat ->
    derive_public_key_from_address address = Raise InvalidAddressFormat.
Proof.
  intros address Hlen. unfold derive_public_key_from_address.
  destruct (match_address address) eqn:Hm; [|reflexivity].
  destruct (match_address_shape address Hm)
    as (prefix & c & body & tail & Hchars & Hp & Hb & _ & Ht).
  rewrite <- length_chars, Hchars in Hlen.
  rewrite length_app in Hlen. cbn [List.length] in Hlen.
  rewrite length_app, Hb in Hlen.
  destruct Hp as [-> | ->], Ht as [-> | ->]; simpl in Hlen; lia.
Qed.

Lemma address_length_is_checked_witness :
  derive_public_key_from_address "nano_1" = Raise InvalidAddressFormat.
Proof.
  apply address_length_is_checked. left. simpl. lia.
Defined.

(** X8: A newline at the end of an address passes the format check, because [$]
    matches before it, but the last eight characters then hold the newline
    and can be no checksum: the address is refused after the format check
    and no key is returned. *)
Theorem trailing_newline_is_rejected :
  forall address : string,
    match_address (address ++ String newline "")%string = true ->
    exists e,
      derive_public_key_from_address (address ++ String newline "")%string
      = Raise e
      /\ e <> InvalidAddressFormat.
Proof.
  intros address Hm. exists ChecksumMismatch. split; [|discriminate].
  unfold derive_public_key_from_address. rewrite Hm.
  cbn [negb].
  destruct (match_address_shape _ Hm)
    as (prefix & c & body & tail & Hchars & Hp & Hb & Hall & Ht).
  assert (Htail : tail = [newline]).
  { destruct Ht as [->| ->]; [|reflexivity]. exfalso.
    rewrite chars_app, app_nil_r in Hchars.
    change (chars (String newline "")) with [newline] in Hchars.
    destruct body as [|b body' _] using rev_ind; [discriminate Hb|].
    replace (prefix ++ "_"%char :: c :: body' ++ [b])
      with ((prefix ++ "_"%char :: c :: body') ++ [b]) in Hchars
      by (rewrite <- app_assoc; reflexivity).
    apply app_inj_tail in Hchars as [_ Hnl].
    assert (Hin : nl.in_alphabet newline = true).
    { rewrite Hnl. rewrite forallb_forall in Hall. apply Hall.
      right. apply in_or_app. right. now left. }
    discriminate Hin. }
  subst tail. rewrite Hchars.
  rewrite <- (firstn_skipn 52 body).
  assert (Hl8 : List.length (skipn 52 body ++ [newline]) = 8%nat)
    by (rewrite length_app, length_skipn; simpl; lia).
  cbn [forallb] in Hall. apply andb_prop in Hall as [Hc Hall].
  assert (Hpart : exists pre part,
             prefix ++ "_"%char :: c :: (firstn 52 body ++ skipn 52 body) ++ [newline]
             = (pre ++ part) ++ (skipn 52 body ++ [newline])
             /\ List.length pre = 5%nat
             /\ forallb nl.in_alphabet part = true).
  { destruct Hp as [-> | ->].
    - exists (chars "nano_"), (c :: firstn 52 body).
      split; [simpl; now rewrite <- !app_assoc|]. split; [reflexivity|].
      cbn [forallb]. rewrite Hc. now apply DecoderFacts.forallb_firstn.
    - exists (chars "xrb_" ++ [c]), (firstn 52 body).
      split; [simpl; now rewrite <- !app_assoc|]. split; [reflexivity|].
      now apply DecoderFacts.forallb_firstn. }
  destruct Hpart as (pre & part & -> & Hpre & Hpart).
  rewrite slice_to_neg_app, slice_from_neg_app by exact Hl8.
  rewrite slice_from_app by exact Hpre.
  unfold nl.nbase32_to_bytes. rewrite chars_str.
  destruct (DecoderFacts.indices_in_alphabet part Hpart) as (ds & -> & _).
  cbn [bind].
  match goal with
  | |- context [String.eqb ?a ?b] => destruct (String.eqb_spec a b) as [Heq|Hne]
  end; [|reflexivity].
  apply (f_equal chars) in Heq. rewrite chars_str in Heq.
  match type of Heq with
  | _ = chars (nl.bytes_to_nbase32 ?x) =>
      pose proof (AddressFacts.encoded_in_alphabet x) as Hin
  end.
  rewrite <- Heq, forallb_app in Hin. apply andb_prop in Hin as [_ Hin].
  cbn [forallb] in Hin.
  rewrite DecoderFacts.newline_not_in_alphabet in Hin. discriminate Hin.
Qed.

Lemma trailing_newline_is_rejected_witness :
  exists e,
    derive_public_key_from_address (example_address ++ String newline "")%string
    = Raise e
    /\ e <> InvalidAddressFormat.
Proof.
  apply (trailing_newline_is_rejected example_address).
  vm_compute. reflexivity.
Defined.

(** ** Link payloads *)

Lemma match_hex_not_address (s : string) :
  match_hex s = true -> match_address s = false.
Proof.
  unfold match_hex, match_address. destruct (chars s) as [|c rest]; [discriminate|].
  intros H. apply andb_prop in H as [Hc _].
  change (chars "nano") with ["n"; "a"; "n"; "o"]%char.
  change (chars "xrb") with ["x"; "r"; "b"]%char.
  cbn [strip_prefix].
  destruct (Ascii.eqb_spec "n" c) as [<-|_]; [discriminate Hc|].
  destruct (Ascii.eqb_spec "x" c) as [<-|_]; [discriminate Hc|].
  reflexivity.
Qed.

Lemma unhexlify_zeros (n : nat) :
  unhexlify (str (repeat "0"%char (2 * n))) = Ok (repeat x00 n).
Proof.
  unfold unhexlify. rewrite chars_str.
  induction n as [|n IH]; [reflexivity|].
  replace (2 * S n)%nat with (S (S (2 * n))) by lia.
  cbn [repeat unhexlify_chars]. change (hex_value "0") with (Some 0).
  cbn iota. rewrite IH. reflexivity.
Qed.

(** X12: A link of 2n ['0'] characters gives n zero bytes as payload (32 for the
    64 characters of a change block).  It is taken by the branch for hex
    strings: the branch for change blocks is never reached. *)
Theorem zero_link_payload :
  forall (blk : Block) (n : nat),
    (0 < n)%nat -> link blk = str (repeat "0"%char (2 * n)) ->
    match_hex (link blk) = true
    /\ process_link_data blk = Ok (link blk)
    /\ (h <- process_link_data blk ;; unhexlify h) = Ok (repeat x00 n).
Proof.
  intros blk n Hn Hl.
  assert (Hz : only_zeros (link blk) = true).
  { apply only_zeros_spec. exists (2 * n)%nat. split; [lia|exact Hl]. }
  pose proof (only_zeros_match_hex _ Hz) as Hh.
  assert (Hp : process_link_data blk = Ok (link blk)).
  { unfold process_link_data. now rewrite (match_hex_not_address _ Hh), Hh. }
  split; [exact Hh|]. split; [exact Hp|].
  rewrite Hp. cbn [bind]. rewrite Hl. apply unhexlify_zeros.
Qed.

Lemma zero_link_payload_witness :
  (h <- process_link_data
          (with_link example_block
             "0000000000000000000000000000000000000000000000000000000000000000") ;;
   unhexlify h)
  = Ok (repeat x00 32).
Proof.
  apply (zero_link_payload
           (with_link example_block
              "0000000000000000000000000000000000000000000000000000000000000000")
           32); [lia|reflexivity].
Defined.

(** X13: The payload of a link that is a [nano_] address (a send block) or 64
    hex characters (a receive block) has 32 bytes: the recipient's decoded
    key, or the bytes that the characters spell. *)
Theorem send_and_receive_link_payload :
  forall (blk : Block) (payload : list byte),
    (h <- process_link_data blk ;; unhexlify h) = Ok payload ->
    (exists rest, link blk = ("nano_" ++ rest)%string)
    \/ (match_hex (link blk) = true /\ String.length (link blk) = 64%nat) ->
    List.length payload = 32%nat
    /\ ((exists rest, link blk = ("nano_" ++ rest)%string) ->
        derive_public_key_from_address (link blk) = Ok (upper (hexlify payload)))
    /\ (match_hex (link blk) = true -> unhexlify (link blk) = Ok payload).
Proof.
  intros blk payload H Hshape.
  destruct (process_link_data blk) as [lh|] eqn:Ep; [|discriminate H].
  cbn [bind] in H. unfold process_link_data in Ep.
  assert (Hnano : forall rest, link blk = ("nano_" ++ rest)%string ->
            List.length payload = 32%nat
            /\ derive_public_key_from_address (link blk)
               = Ok (upper (hexlify payload))).
  { intros rest Hl.
    assert (Hh : match_hex (link blk) = false) by (rewrite Hl; reflexivity).
    assert (Hz : only_zeros (link blk) = false) by (rewrite Hl; reflexivity).
    rewrite Hh, Hz in Ep.
    destruct (match_address (link blk)); [|discriminate Ep].
    rewrite Hl in Ep.
    destruct (DecoderFacts.decoded_nano_key _ _ Ep) as (k & Hk & ->).
    rewrite unhexlify_upper_hexlify in H. injection H as <-.
    split; [exact Hk|]. now rewrite Hl. }
  assert (Hhex : match_hex (link blk) = true -> unhexlify (link blk) = Ok payload).
  { intros Hh. rewrite (match_hex_not_address _ Hh), Hh in Ep.
    injection Ep as <-. exact H. }
  split; [|split].
  - destruct Hshape as [[rest Hl] | [Hh Hlen]].
    + exact (proj1 (Hnano rest Hl)).
    + apply Hhex in Hh. apply length_unhexlify in Hh. lia.
  - intros [rest Hl]. exact (proj2 (Hnano rest Hl)).
  - exact Hhex.
Qed.

Lemma send_and_receive_link_payload_witness :
  List.length (bytes_of_hex example_key) = 32%nat
  /\ List.length
       (bytes_of_hex
          "785A65D2125806A9AFF251D60F39F1C80FD39FD1F125FACD7E6293FD33359B55")
     = 32%nat.
Proof.
  split.
  - refine (proj1 (send_and_receive_link_payload
                     (with_link example_block example_address)
                     (bytes_of_hex example_key) _ _)).
    + vm_compute. reflexivity.
    + left. eexists. reflexivity.
  - refine (proj1 (send_and_receive_link_payload example_block
                     (bytes_of_hex
                        "785A65D2125806A9AFF251D60F39F1C80FD39FD1F125FACD7E6293FD33359B55")
                     _ _)).
    + vm_compute. reflexivity.
    + right. split; reflexivity.
Defined.
